(** * PySoSiriusMongo: the extract / transform / load cycle of one channel

    A shallow embedding of [src/etl/extract_transform_load.py] (class [ETL])
    and the properties of its change detection, merge and write steps.

    Python dictionaries are finite maps with string keys, Python lists are
    lists, exceptions are an explicit [Raise] result, the MongoDB database
    is a map from collection names to lists of documents, and the dict
    objects that [self.__last_played] and the local [new_doc] may share
    live in an object table addressed by references. *)

From Stdlib Require Import ZArith String List.
From stdpp Require Import base decidable option list strings pretty gmap fin_maps.

Local Open Scope string_scope.
Local Open Scope Z_scope.
Local Open Scope list_scope.

(** ** Python values *)

(** Scalars: [None], booleans, integers, strings and the identifiers the
    store assigns to inserted documents (ObjectId). *)
Inductive atom :=
  | ANone
  | ABool (b : bool)
  | AInt (n : Z)
  | AStr (s : string)
  | AOid (n : N).

(** What a list may hold: a scalar or a flat dict such as
    [{'id': .., 'number': .., 'name': ..}] or [{'size': .., 'url': ..}]. *)
Inductive elem :=
  | EAtom (a : atom)
  | EDict (d : gmap string atom).

(** The value stored under a key of a document. *)
Inductive value :=
  | Elem (e : elem)
  | List (l : list elem).

(** A document ([dict] with string keys). *)
Abbreviation doc := (gmap string value).

Global Instance atom_eq_dec : EqDecision atom.
Proof. solve_decision. Defined.
Global Instance elem_eq_dec : EqDecision elem.
Proof. solve_decision. Defined.
Global Instance value_eq_dec : EqDecision value.
Proof. solve_decision. Defined.

(** ** Exceptions *)

Inductive exn :=
  | TypeError
  | KeyError
  | IndexError
  | DuplicateKeyError
  | StoreError.

Inductive result (A : Type) :=
  | Ok (a : A)
  | Raise (e : exn).
Arguments Ok {A} a.
Arguments Raise {A} e.

Global Instance result_ret : MRet result := λ A a, Ok a.
Global Instance result_bind : MBind result := λ A B f r,
  match r with
  | Ok a => f a
  | Raise e => Raise e
  end.

(** ** Python operators on these values *)

(** [bool] is a subclass of [int]: [True == 1] and [False == 0]. *)
Definition atom_num (a : atom) : option Z :=
  match a with
  | ABool b => Some (Z.b2z b)
  | AInt n => Some n
  | _ => None
  end.

(** [a == b] on scalars. *)
Definition atom_eqb (a b : atom) : bool :=
  match atom_num a, atom_num b with
  | Some m, Some n => m =? n
  | None, None => bool_decide (a = b)
  | _, _ => false
  end.

(** [d1 == d2] on dicts: the same keys, with equal values. *)
Definition dict_eqb (d1 d2 : gmap string atom) : bool :=
  bool_decide (dom d1 = dom d2)
  && forallb (λ kv, match d2 !! kv.1 with
                    | Some b => atom_eqb kv.2 b
                    | None => false
                    end) (map_to_list d1).

(** [x == y]. *)
Definition py_eq (x y : elem) : bool :=
  match x, y with
  | EAtom a, EAtom b => atom_eqb a b
  | EDict d1, EDict d2 => dict_eqb d1 d2
  | _, _ => false
  end.

(** Truth value of a dict: empty is false. *)
Definition truthy (d : doc) : bool := bool_decide (d ≠ ∅).

(** [t in s] on strings: [t] occurs in [s] as a substring. *)
Definition str_contains (t s : string) : bool :=
  match String.index 0 t s with
  | Some _ => true
  | None => bool_decide (t = "")
  end.

(** [-1] as an index into a string: its last character. A string is its
    sequence of bytes here, so this is the last character of a string of
    one-byte (ASCII) characters, as the timestamps of the feed are. *)
Fixpoint str_last (s : string) : option string :=
  match s with
  | EmptyString => None
  | String c EmptyString => Some (String c EmptyString)
  | String _ s' => str_last s'
  end.

(** [v[-1]]. *)
Definition py_last (v : value) : result elem :=
  match v with
  | List l =>
      match last l with
      | Some x => Ok x
      | None => Raise IndexError
      end
  | Elem (EAtom (AStr s)) =>
      match str_last s with
      | Some c => Ok (EAtom (AStr c))
      | None => Raise IndexError
      end
  | Elem (EDict _) => Raise KeyError
  | Elem (EAtom _) => Raise TypeError
  end.

(** [v[::-1]]: a reversed copy of a list or string; nothing else can be
    sliced. *)
Definition py_reversed (v : value) : result value :=
  match v with
  | List l => Ok (List (rev l))
  | Elem (EAtom (AStr s)) => Ok (Elem (EAtom (AStr (String.rev s))))
  | Elem _ => Raise TypeError
  end.

(** [x in v]: list membership compares with [==]; a string only accepts a
    string on the left; a dict looks [x] up among its keys and so needs a
    hashable [x]; other values are not iterable. *)
Definition py_in (x : elem) (v : value) : result bool :=
  match v with
  | List l => Ok (existsb (py_eq x) l)
  | Elem (EAtom (AStr s)) =>
      match x with
      | EAtom (AStr t) => Ok (str_contains t s)
      | _ => Raise TypeError
      end
  | Elem (EDict d) =>
      match x with
      | EAtom (AStr t) => Ok (bool_decide (is_Some (d !! t)))
      | EAtom _ => Ok false
      | EDict _ => Raise TypeError
      end
  | Elem (EAtom _) => Raise TypeError
  end.

(** [v + [x]]: only a list can be extended by a list. *)
Definition py_append (v : value) (x : elem) : result value :=
  match v with
  | List l => Ok (List (l ++ [x]))
  | Elem _ => Raise TypeError
  end.

(** [v + 1]. *)
Definition py_incr (v : value) : result value :=
  match v with
  | Elem (EAtom a) =>
      match atom_num a with
      | Some n => Ok (Elem (EAtom (AInt (n + 1))))
      | None => Raise TypeError
      end
  | _ => Raise TypeError
  end.

(** [str(a)], used to name the channel's collection. *)
Definition py_str (a : atom) : string :=
  match a with
  | ANone => "None"
  | ABool true => "True"
  | ABool false => "False"
  | AInt n => pretty n
  | AStr s => s
  | AOid n => "ObjectId(" +:+ pretty n +:+ ")"
  end.

(** ** The playback snapshot

    The snapshot is the [SiriusCurrentlyPlaying] object of the external
    pysosirius client after a fetch. Its properties ([status], [start],
    [artist_name], [song_name]) and the attributes the transform reads out
    of its [data] with [get_attribute] are the fields below; a missing
    attribute reads as [None]. Every entry of [creativeArts] carries the
    four keys the client delivers. *)

Record artwork := {
  art_type : atom;
  art_encrypted : atom;
  art_size : atom;
  art_url : atom;
}.

Record snapshot := {
  status : bool;
  start : atom;
  artist_name : atom;
  song_name : atom;
  album_name : atom;
  channelId : atom;
  channelNumber : atom;
  channelName : atom;
  creativeArts : list artwork;
  request_url : string;
}.

(** ** The merge: [transform_helper] *)

(** [{'name': a}] *)
Definition name_doc (a : atom) : value := Elem (EDict {[ "name" := a ]}).

(** [{'id': .., 'number': .., 'name': ..}] of the snapshot's channel. *)
Definition channel_data (extraction_data : snapshot) : elem :=
  EDict (<["id" := channelId extraction_data]>
         (<["number" := channelNumber extraction_data]>
          {[ "name" := channelName extraction_data ]})).

(** The loop over [creativeArts]: unencrypted images only, reduced to
    size and url. *)
Definition image_list (arts : list artwork) : list elem :=
  (λ a, EDict (<["size" := art_size a]> {[ "url" := art_url a ]}))
    <$> filter (λ a, atom_eqb (art_type a) (AStr "IMAGE")
                     && atom_eqb (art_encrypted a) (ABool false) = true) arts.

(** [d.get(key, [])] *)
Definition get_list (key : string) (d : doc) : value :=
  default (List []) (d !! key).

Definition transform_helper (extraction_data : snapshot)
    (existing_transformed_data : option doc) : result doc :=
  let new_transformed_data :=
    match existing_transformed_data with
    | Some d => if truthy d then d else ∅
    | None => ∅
    end in
  (* index based fields *)
  let d1 := <["album" := name_doc (album_name extraction_data)]> new_transformed_data in
  let d2 := <["song" := name_doc (song_name extraction_data)]> d1 in
  let d3 := <["artist" := name_doc (artist_name extraction_data)]> d2 in
  (* update last played if not already in list *)
  let new_datetime := EAtom (start extraction_data) in
  reversed ← py_reversed (get_list "datetime" d3);
  seen ← py_in new_datetime reversed;
  d4 ← (if negb seen
        then v ← py_append (get_list "datetime" d3) new_datetime;
             mret (<["datetime" := v]> d3)
        else mret d3);
  (* update channel data if not already in list *)
  known ← py_in (channel_data extraction_data) (get_list "channels" d4);
  d5 ← (if negb known
        then v ← py_append (get_list "channels" d4) (channel_data extraction_data);
             mret (<["channels" := v]> d4)
        else mret d4);
  (* non indexed fields *)
  count ← py_incr (default (Elem (EAtom (AInt 0))) (d5 !! "play_count"));
  let d6 := <["play_count" := count]> d5 in
  mret (<["artwork" := List (image_list (creativeArts extraction_data))]> d6).

(** ** The store

    A MongoDB database: named collections, each a sequence of documents in
    insertion order. Every call into the store may fail; which calls fail
    during a cycle is an input ([faults]). *)

Inductive store_op :=
  | OpCollectionNames
  | OpFindOne
  | OpFind
  | OpUpdateOne
  | OpInsertOne
  | OpReplaceOne.

Record Database := {
  collections : gmap string (list doc);
}.

(** [db[name]]: a collection that was never written is empty. *)
Definition collection (db : Database) (name : string) : list doc :=
  default [] (collections db !! name).

Definition set_collection (db : Database) (name : string) (c : list doc) : Database :=
  {| collections := <[name := c]> (collections db) |}.

(** The filter [{'_id': c}]. *)
Definition id_filter (c : atom) (d : doc) : bool :=
  bool_decide (d !! "_id" = Some (Elem (EAtom c))).

(** First document of a collection that passes a filter, with its
    position. *)
Definition find_first (f : doc → bool) (c : list doc) : option (nat * doc) :=
  list_find (λ d, f d = true) c.

(** [update_one(filter, {'$set': updates})]: the first match gets the keys
    of [updates] written over its own; no match, no change. *)
Definition update_one (f : doc → bool) (updates : doc) (c : list doc) : list doc :=
  match find_first f c with
  | Some (i, d) => <[i := updates ∪ d]> c
  | None => c
  end.

(** The server side of [insert_one]: [_id] is unique in a collection. *)
Definition insert_doc (d : doc) (c : list doc) : result (list doc) :=
  if existsb (λ d', bool_decide (is_Some (d !! "_id") ∧ d' !! "_id" = d !! "_id")) c
  then Raise DuplicateKeyError
  else Ok (c ++ [d]).

(** [replace_one(filter, d, upsert=True)]: the first match is replaced by
    [d]; without a match [d] is inserted. *)
Definition replace_one (f : doc → bool) (d : doc) (c : list doc) : list doc :=
  match find_first f c with
  | Some (i, _) => <[i := d]> c
  | None => c ++ [d]
  end.

(** ** The channel's ETL object *)

(** References to dict objects. *)
Definition ref := nat.

Record SiriusChannel := {
  channel : atom;
  name : string;
  url : string;
}.

Inductive log_record :=
  | LogInfo (song : atom)
  | LogError (channel_name channel_url currently_playing_url : string).

(** The attributes of [self], and next to them what the methods read and
    write besides: the dict objects in use ([objects], a reference is a
    position in it), the counter ObjectIds are drawn from, and the records
    handed to the module logger. *)
Record ETL := {
  pss_channel : SiriusChannel;
  database : option Database;
  database_write : bool;
  last_played : option ref;
  objects : list doc;
  next_oid : N;
  log : list log_record;
}.

Definition set_last_played (lp : option ref) (self : ETL) : ETL :=
  {| pss_channel := pss_channel self; database := database self;
     database_write := database_write self; last_played := lp;
     objects := objects self; next_oid := next_oid self; log := log self |}.

Definition set_database (db : option Database) (self : ETL) : ETL :=
  {| pss_channel := pss_channel self; database := db;
     database_write := database_write self; last_played := last_played self;
     objects := objects self; next_oid := next_oid self; log := log self |}.

Definition set_objects (h : list doc) (self : ETL) : ETL :=
  {| pss_channel := pss_channel self; database := database self;
     database_write := database_write self; last_played := last_played self;
     objects := h; next_oid := next_oid self; log := log self |}.

Definition set_next_oid (n : N) (self : ETL) : ETL :=
  {| pss_channel := pss_channel self; database := database self;
     database_write := database_write self; last_played := last_played self;
     objects := objects self; next_oid := n; log := log self |}.

Definition add_log (r : log_record) (self : ETL) : ETL :=
  {| pss_channel := pss_channel self; database := database self;
     database_write := database_write self; last_played := last_played self;
     objects := objects self; next_oid := next_oid self; log := log self ++ [r] |}.

(** The dict a reference stands for. References only come from [new_object],
    so the default is never read. *)
Definition deref (self : ETL) (r : ref) : doc := default ∅ (objects self !! r).

(** [self.collection_name], fixed by [__init__]. *)
Definition collection_name (self : ETL) : string :=
  "channel_" +:+ py_str (channel (pss_channel self)).

(** *** Methods that change state

    A method maps the state before to the state after and either a value
    or the exception that ended it. *)
Definition action (A : Type) : Type := ETL → ETL * result A.

Global Instance action_ret : MRet action := λ A a self, (self, Ok a).
Global Instance action_bind : MBind action := λ A B f m self,
  match m self with
  | (self', Ok a) => f a self'
  | (self', Raise e) => (self', Raise e)
  end.

Definition raise {A} (e : exn) : action A := λ self, (self, Raise e).
Definition get_self : action ETL := λ self, (self, Ok self).
Definition modify (f : ETL → ETL) : action unit := λ self, (f self, Ok tt).
Definition lift {A} (r : result A) : action A := λ self, (self, r).

(** A new dict object holding [d]. *)
Definition new_object (d : doc) : action ref :=
  λ self, (set_objects (objects self ++ [d]) self, Ok (length (objects self))).

(** [r[key] = v] *)
Definition set_item (r : ref) (key : string) (v : value) : action unit :=
  modify (λ self, set_objects (<[r := <[key := v]> (deref self r)]> (objects self)) self).

(** A call into the store: it raises when this call is one that fails. *)
Definition store_call (faults : store_op → bool) (op : store_op) : action unit :=
  if faults op then raise StoreError else mret tt.

(** [if d:] for an optional dict. *)
Definition truthy_opt (d : option doc) : bool :=
  match d with Some d => truthy d | None => false end.

Section ETL.

(** Equality of two names under the store's collation
    [{'locale': 'en', 'strength': 2}]. *)
Variable collation_eq : atom → atom → bool.

(** The name a document carries under [key]: [d[key]['name']], [None] when
    there is none. *)
Definition name_of (key : string) (d : doc) : atom :=
  match d !! key with
  | Some (Elem (EDict m)) => default ANone (m !! "name")
  | _ => ANone
  end.

(** The filter [{'artist.name': .., 'song.name': ..}] for the song
    currently playing. *)
Definition existing_filter (currently_playing : snapshot) (d : doc) : bool :=
  collation_eq (name_of "artist" d) (artist_name currently_playing)
  && collation_eq (name_of "song" d) (song_name currently_playing).

(** The property [last_played_start]. *)
Definition last_played_start (self : ETL) : result elem :=
  match last_played self with
  | Some r =>
      if truthy (deref self r)
      then match deref self r !! "datetime" with
           | Some v => py_last v
           | None => Raise KeyError
           end
      else Ok (EAtom ANone)
  | None => Ok (EAtom ANone)
  end.

(** [__update_last_played(last_played)]; the argument defaults to an empty
    dict, which is as false as [None]. *)
Definition update_last_played (faults : store_op → bool) (arg : option ref)
    : action unit :=
  self ← get_self;
  if truthy_opt (deref self <$> arg) then
    modify (set_last_played arg)
  else
    match database self with
    | Some db =>
        store_call faults OpCollectionNames;;
        if bool_decide ("last_played" ∈ dom (collections db)) then
          store_call faults OpFindOne;;
          match find_first (id_filter (channel (pss_channel self)))
                           (collection db "last_played") with
          | Some (_, d) => r ← new_object d; modify (set_last_played (Some r))
          | None => modify (set_last_played None)
          end
        else mret tt
    | None => mret tt
    end.

(** [get_existing()]: the first match of the filter, [None] when the
    [IndexError] of an empty result is caught or there is no database. *)
Definition get_existing (faults : store_op → bool) (currently_playing : snapshot)
    (self : ETL) : result (option doc) :=
  match database self with
  | Some db =>
      if faults OpFind then Raise StoreError
      else Ok (snd <$> find_first (existing_filter currently_playing)
                                  (collection db (collection_name self)))
  | None => Ok None
  end.

(** The keys that never go into an update. *)
Definition index_keys : list string := ["_id"; "album"; "song"; "artist"; "artwork"].

(** [__transform()]: the new document and the updates for an existing one,
    or [(None, None)] when the song has not changed. *)
Definition transform (faults : store_op → bool) (currently_playing : snapshot)
    (self : ETL) : result (option doc * option doc) :=
  started ← last_played_start self;
  if negb (py_eq started (EAtom (start currently_playing))) then
    existing_doc ← get_existing faults currently_playing self;
    if truthy_opt existing_doc then
      new_doc ← transform_helper currently_playing existing_doc;
      let doc_updates := filter (λ kv, kv.1 ∉ index_keys) new_doc in
      mret (Some new_doc, Some doc_updates)
    else
      new_doc ← transform_helper currently_playing None;
      mret (Some new_doc, None)
  else mret (None, None).

(** The client side of [insert_one]: a document without [_id] is given a
    fresh ObjectId before it is sent. *)
Definition ensure_id (r : ref) : action unit :=
  self ← get_self;
  match deref self r !! "_id" with
  | Some _ => mret tt
  | None =>
      set_item r "_id" (Elem (EAtom (AOid (next_oid self))));;
      modify (λ self, set_next_oid (N.succ (next_oid self)) self)
  end.

(** Run a write on one collection of the database. *)
Definition write_collection (name : string) (f : list doc → result (list doc))
    : action unit :=
  self ← get_self;
  match database self with
  | Some db =>
      c ← lift (f (collection db name));
      modify (set_database (Some (set_collection db name c)))
  | None => mret tt
  end.

(** [__load(new_doc, doc_updates)] *)
Definition load (faults : store_op → bool) (currently_playing : snapshot)
    (new_doc : ref) (doc_updates : option doc) : action unit :=
  (* make sure we log the last played on the channel
     regardless of writing to the db or not *)
  update_last_played faults (Some new_doc);;
  self ← get_self;
  if bool_decide (is_Some (database self)) && database_write self then
    (* update the channel specific song documents *)
    (if truthy_opt doc_updates then
       store_call faults OpUpdateOne;;
       write_collection (collection_name self)
         (λ c, Ok (update_one (existing_filter currently_playing)
                              (default ∅ doc_updates) c))
     else
       ensure_id new_doc;;
       store_call faults OpInsertOne;;
       self' ← get_self;
       write_collection (collection_name self) (insert_doc (deref self' new_doc)));;
    (* update the last played collection doc for this channel *)
    set_item new_doc "_id" (Elem (EAtom (channel (pss_channel self))));;
    store_call faults OpReplaceOne;;
    self' ← get_self;
    write_collection "last_played"
      (λ c, Ok (replace_one (id_filter (channel (pss_channel self)))
                            (deref self' new_doc) c))
  else mret tt.

(** [extract_transform_load()], for the snapshot the fetch of this cycle
    delivered. *)
Definition extract_transform_load (faults : store_op → bool)
    (currently_playing : snapshot) : action unit :=
  (* if the extraction was successful *)
  if status currently_playing then
    self ← get_self;
    '(new_doc, doc_updates) ← lift (transform faults currently_playing self);
    (* theres always a new doc for newly switched to song *)
    match new_doc with
    | Some d =>
        if truthy d then
          modify (add_log (LogInfo (song_name currently_playing)));;
          r ← new_object d;
          load faults currently_playing r doc_updates
        else mret tt
    | None => mret tt
    end
  else
    self ← get_self;
    modify (add_log (LogError (name (pss_channel self)) (url (pss_channel self))
                              (request_url currently_playing))).

End ETL.

(** ** Vocabulary of the properties *)

(** [l + [x]] unless [x in l]. *)
Definition add_new (x : elem) (l : list elem) : list elem :=
  if existsb (py_eq x) l then l else l ++ [x].

(** The document the merge starts from: the existing one, or an empty
    dict. *)
Definition start_doc (existing : option doc) : doc := default ∅ existing.

Definition is_list (v : value) : bool :=
  match v with List _ => true | Elem _ => false end.

Definition is_number (v : value) : bool :=
  match v with
  | Elem (EAtom a) => bool_decide (is_Some (atom_num a))
  | _ => false
  end.

(** A record of the history schema, as far as the merge reads it:
    [datetime] and [channels] are lists and [play_count] is a number,
    where they are present. *)
Definition well_formed (d : doc) : bool :=
  is_list (get_list "datetime" d)
  && is_list (get_list "channels" d)
  && is_number (default (Elem (EAtom (AInt 0))) (d !! "play_count")).

(** The fields a merge recomputes and an update writes. *)
Definition mutable_keys : list string := ["datetime"; "channels"; "play_count"].

(** Merging one snapshot after the other into a record, each merge
    starting from the record the one before produced. *)
Fixpoint merge_all (snapshots : list snapshot) (d : doc) : result doc :=
  match snapshots with
  | [] => Ok d
  | s :: rest => d' ← transform_helper s (Some d); merge_all rest d'
  end.

(** The polling loop around the cycle: one fetched snapshot per cycle, an
    exception ends the cycle and the next one starts from the state it
    left. *)
Fixpoint cycles (collation_eq : atom → atom → bool)
    (inputs : list ((store_op → bool) * snapshot)) (self : ETL) : ETL :=
  match inputs with
  | [] => self
  | (faults, s) :: rest =>
      cycles collation_eq rest (extract_transform_load collation_eq faults s self).1
  end.

(** The channel's history collection. *)
Definition history (self : ETL) : list doc :=
  match database self with
  | Some db => collection db (collection_name self)
  | None => []
  end.

(** The document of the pointer collection for the channel:
    [find_one({'_id': channel})]. *)
Definition pointer (self : ETL) : option doc :=
  match database self with
  | Some db => snd <$> find_first (id_filter (channel (pss_channel self)))
                                  (collection db "last_played")
  | None => None
  end.

(** [d] after [d['_id'] = c]. *)
Definition with_id (c : atom) (d : doc) : doc := <["_id" := Elem (EAtom c)]> d.

(** The state in which the object [r] holds [d]. *)
Definition put_object (r : ref) (d : doc) (self : ETL) : ETL :=
  set_objects (<[r := d]> (objects self)) self.

(** The object [r] after the client side of [insert_one] has seen it. *)
Definition ensured (self : ETL) (r : ref) : doc :=
  match deref self r !! "_id" with
  | Some _ => deref self r
  | None => with_id (AOid (next_oid self)) (deref self r)
  end.

(** Every record of [c] is still at its place in [c'], and all its fields
    other than the mutable ones are as they were. *)
Definition history_kept (c c' : list doc) : Prop :=
  ∀ i ex, c !! i = Some ex →
    ∃ ex', c' !! i = Some ex' ∧
           ∀ key, key ∉ mutable_keys → ex' !! key = ex !! key.

(** ** Sample data *)

(** A playback snapshot of channel 5 ("Hits 1"). *)
Definition playing (artist song : string) (started : atom) : snapshot :=
  {| status := true; start := started;
     artist_name := AStr artist; song_name := AStr song;
     album_name := AStr "Album";
     channelId := AStr "siriushits1"; channelNumber := AInt 5;
     channelName := AStr "Hits 1";
     creativeArts :=
       [ {| art_type := AStr "IMAGE"; art_encrypted := ABool false;
            art_size := AStr "MEDIUM"; art_url := AStr "http://art/1" |};
         {| art_type := AStr "IMAGE"; art_encrypted := ABool true;
            art_size := AStr "LARGE"; art_url := AStr "http://art/2" |} ];
     request_url := "http://player/now" |}.

(** The history record of song X by artist A after plays at t1 and t2. *)
Definition record_AX : doc :=
  <["_id" := Elem (EAtom (AOid 0))]>
  (<["album" := name_doc (AStr "Album")]>
   (<["song" := name_doc (AStr "X")]>
    (<["artist" := name_doc (AStr "A")]>
     (<["datetime" := List [EAtom (AStr "t1"); EAtom (AStr "t2")]]>
      (<["channels" := List [channel_data (playing "A" "X" ANone)]]>
       (<["play_count" := Elem (EAtom (AInt 2))]>
        {[ "artwork" := List [] ]})))))).

Definition no_faults : store_op → bool := λ _, false.

Definition hits1 : SiriusChannel :=
  {| channel := AInt 5; name := "Hits 1"; url := "http://channel/5" |}.

(** A freshly constructed ETL object over a database. *)
Definition fresh_etl (db : option Database) (write : bool) : ETL :=
  {| pss_channel := hits1; database := db; database_write := write;
     last_played := None; objects := []; next_oid := 0%N; log := [] |}.

(** A database whose history for channel 5 holds [record_AX]. *)
Definition db_AX : Database :=
  {| collections := {[ "channel_5" := [record_AX] ]} |}.

(** The state in which [d] is the one dict object in use. *)
Definition holding (d : doc) (self : ETL) : ETL := set_objects [d] self.

(** Updates as a third play of [record_AX] would write them. *)
Definition updates_AX : doc := {[ "play_count" := Elem (EAtom (AInt 3)) ]}.

(** A store whose pointer replacement fails and whose other calls work. *)
Definition pointer_write_fails : store_op → bool :=
  λ op, match op with OpReplaceOne => true | _ => false end.


(** [record_AX] with a text where the schema has the play count, and a
    database whose history for channel 5 holds it. *)
Definition record_text_count : doc :=
  <["play_count" := Elem (EAtom (AStr "two"))]> record_AX.

Definition db_text_count : Database :=
  {| collections := {[ "channel_5" := [record_text_count] ]} |}.
(** * Properties *)

(** ** Python equality and membership *)

Lemma atom_eqb_refl (a : atom) : atom_eqb a a = true.
Proof.
  unfold atom_eqb. destruct (atom_num a) as [n|].
  - apply Z.eqb_refl.
  - by apply bool_decide_eq_true.
Qed.

Lemma dict_eqb_refl (d : gmap string atom) : dict_eqb d d = true.
Proof.
  unfold dict_eqb. apply andb_true_iff. split.
  - by apply bool_decide_eq_true.
  - apply forallb_forall. intros [k a] Hin.
    apply list_elem_of_In, elem_of_map_to_list in Hin. simpl.
    rewrite Hin. apply atom_eqb_refl.
Qed.

Lemma py_eq_refl (x : elem) : py_eq x x = true.
Proof. destruct x; simpl; [apply atom_eqb_refl | apply dict_eqb_refl]. Qed.

(** [None] equals only itself. *)
Lemma atom_eqb_None (a : atom) : atom_eqb ANone a = true ↔ a = ANone.
Proof.
  split; [|intros ->; apply atom_eqb_refl].
  unfold atom_eqb. simpl. destruct (atom_num a); [done|].
  intros H. by apply bool_decide_eq_true in H.
Qed.

Lemma existsb_rev {A} (f : A → bool) (l : list A) :
  existsb f (rev l) = existsb f l.
Proof.
  induction l as [|x l IH]; [done|]. simpl.
  rewrite existsb_app, IH. simpl. rewrite orb_false_r. apply orb_comm.
Qed.

Lemma existsb_py_eq_elem_of (x : elem) (l : list elem) :
  x ∈ l → existsb (py_eq x) l = true.
Proof.
  intros Hin. apply existsb_exists. exists x. split.
  - by apply list_elem_of_In.
  - apply py_eq_refl.
Qed.

Lemma existsb_py_eq_false_not_elem_of (x : elem) (l : list elem) :
  existsb (py_eq x) l = false → x ∉ l.
Proof.
  intros Hf Hin. apply existsb_py_eq_elem_of in Hin. congruence.
Qed.

(** ** What [transform_helper] computes *)

Lemma truthy_or_empty (d : doc) : (if truthy d then d else ∅) = d.
Proof.
  unfold truthy. case_bool_decide as H; [done|].
  destruct (decide (d = ∅)) as [->|Hne]; [done | by destruct H].
Qed.

Lemma get_list_insert_ne (k k' : string) (v : value) (d : doc) :
  k ≠ k' → get_list k' (<[k := v]> d) = get_list k' d.
Proof. intros Hne. unfold get_list. by rewrite lookup_insert_ne. Qed.

Lemma get_list_insert_add_new (k : string) (x : elem) (l : list elem) (d : doc) :
  get_list k d = List l →
  (if negb (existsb (py_eq x) l)
   then <[k := List (l ++ [x])]> d else d) = <[k := List (add_new x l)]> d.
Proof.
  intros Hl. unfold add_new. destruct (existsb (py_eq x) l) eqn:Hx; simpl; [|done].
  symmetry. apply insert_id. unfold get_list in Hl.
  destruct (d !! k) as [v|]; simpl in Hl; [by subst|].
  injection Hl as <-. discriminate.
Qed.

Lemma result_if_ret {A} (b : bool) (x y : A) :
  (if b then mret x else mret y) = Ok (if b then x else y).
Proof. by destruct b. Qed.

(** The merge written out, for a record whose [datetime] and [channels]
    are lists (or missing) and whose [play_count] is a number (or
    missing). *)
Lemma transform_helper_eq (extraction_data : snapshot) (existing : option doc)
    (l cs : list elem) (a : atom) (k : Z) :
  get_list "datetime" (start_doc existing) = List l →
  get_list "channels" (start_doc existing) = List cs →
  default (Elem (EAtom (AInt 0))) (start_doc existing !! "play_count") = Elem (EAtom a) →
  atom_num a = Some k →
  transform_helper extraction_data existing =
    Ok (<["artwork" := List (image_list (creativeArts extraction_data))]>
        (<["play_count" := Elem (EAtom (AInt (k + 1)))]>
         (<["channels" := List (add_new (channel_data extraction_data) cs)]>
          (<["datetime" := List (add_new (EAtom (start extraction_data)) l)]>
           (<["artist" := name_doc (artist_name extraction_data)]>
            (<["song" := name_doc (song_name extraction_data)]>
             (<["album" := name_doc (album_name extraction_data)]>
              (start_doc existing)))))))).
Proof.
  intros Hl Hcs Ha Hk. unfold transform_helper.
  replace (match existing with
           | Some d => if truthy d then d else ∅
           | None => ∅
           end) with (start_doc existing)
    by (destruct existing as [d|]; simpl; [by rewrite truthy_or_empty|done]).
  set (d3 := <["artist" := _]> _).
  assert (get_list "datetime" d3 = List l) as Hl3
    by (unfold d3; by rewrite !get_list_insert_ne).
  rewrite Hl3. simpl. rewrite existsb_rev.
  rewrite result_if_ret, (get_list_insert_add_new _ _ _ _ Hl3). simpl.
  set (d4 := <["datetime" := _]> _).
  assert (get_list "channels" d4 = List cs) as Hcs4
    by (unfold d4, d3; by rewrite !get_list_insert_ne).
  rewrite Hcs4. simpl.
  rewrite result_if_ret, (get_list_insert_add_new _ _ _ _ Hcs4). simpl.
  unfold d4, d3. rewrite !lookup_insert_ne by done.
  rewrite Ha. simpl. by rewrite Hk.
Qed.

Lemma well_formed_inv (d : doc) :
  well_formed d = true →
  ∃ l cs a k,
    get_list "datetime" d = List l ∧ get_list "channels" d = List cs ∧
    default (Elem (EAtom (AInt 0))) (d !! "play_count") = Elem (EAtom a) ∧
    atom_num a = Some k.
Proof.
  unfold well_formed. rewrite !andb_true_iff. intros [[Hl Hcs] Hn].
  destruct (get_list "datetime" d) as [|l]; [done|].
  destruct (get_list "channels" d) as [|cs]; [done|].
  destruct (default _ _) as [[a|]|]; try done. simpl in Hn.
  apply bool_decide_eq_true in Hn as [k Hk]. by exists l, cs, a, k.
Qed.

Lemma well_formed_empty : well_formed ∅ = true.
Proof. reflexivity. Qed.

(** A merge of a well-formed record succeeds. *)
Lemma transform_helper_Ok (extraction_data : snapshot) (existing : option doc) :
  well_formed (start_doc existing) = true →
  ∃ d, transform_helper extraction_data existing = Ok d.
Proof.
  intros Hwf. apply well_formed_inv in Hwf as (l & cs & a & k & Hl & Hcs & Ha & Hk).
  eexists. by apply (transform_helper_eq _ _ l cs a k).
Qed.

(** ** C1: timestamps are de-duplicated against the whole list *)

(** C1, as stated, fails: after plays at t1 and t2, a snapshot that started
    at t1 again (equal to an earlier entry, not to the last one) leaves
    [datetime] as it was. *)
Lemma datetime_earlier_repeat_not_appended :
  get_list "datetime" record_AX = List [EAtom (AStr "t1"); EAtom (AStr "t2")] ∧
  ∃ d, transform_helper (playing "A" "X" (AStr "t1")) (Some record_AX) = Ok d ∧
       d !! "datetime" = Some (List [EAtom (AStr "t1"); EAtom (AStr "t2")]) ∧
       d !! "datetime" ≠
         Some (List [EAtom (AStr "t1"); EAtom (AStr "t2"); EAtom (AStr "t1")]).
Proof.
  split; [reflexivity|].
  assert ((d ← transform_helper (playing "A" "X" (AStr "t1")) (Some record_AX);
           mret (d !! "datetime"))
          = Ok (Some (List [EAtom (AStr "t1"); EAtom (AStr "t2")]))) as Hrun
    by (vm_compute; reflexivity).
  destruct (transform_helper _ _) as [d|]; [|discriminate].
  injection Hrun as Hd. exists d. rewrite Hd.
  split; [reflexivity|]. split; [reflexivity | discriminate].
Qed.

(** C1 (amended): the merge appends the snapshot's start to [datetime]
    exactly when no entry of [datetime], at whatever position, equals it.
    A start equal to the last entry does not grow [datetime], and neither
    does a start equal to an earlier entry; a start equal to no entry is
    appended. *)
Theorem datetime_dedup_whole_list (extraction_data : snapshot)
    (existing : option doc) (l : list elem) :
  well_formed (start_doc existing) = true →
  get_list "datetime" (start_doc existing) = List l →
  ∃ d, transform_helper extraction_data existing = Ok d ∧
    (last l = Some (EAtom (start extraction_data)) →
       d !! "datetime" = Some (List l)) ∧
    (EAtom (start extraction_data) ∈ l → d !! "datetime" = Some (List l)) ∧
    (existsb (py_eq (EAtom (start extraction_data))) l = true →
       d !! "datetime" = Some (List l)) ∧
    (existsb (py_eq (EAtom (start extraction_data))) l = false →
       d !! "datetime" = Some (List (l ++ [EAtom (start extraction_data)]))).
Proof.
  intros Hwf Hl.
  destruct (well_formed_inv _ Hwf) as (l' & cs & a & k & Hl' & Hcs & Ha & Hk).
  rewrite Hl in Hl'. injection Hl' as <-.
  eexists. split; [by apply (transform_helper_eq _ _ l cs a k)|].
  rewrite !lookup_insert_ne, lookup_insert_eq by done. unfold add_new.
  assert (EAtom (start extraction_data) ∈ l →
          existsb (py_eq (EAtom (start extraction_data))) l = true) as Hin
    by apply existsb_py_eq_elem_of.
  repeat split.
  - intros Hlast. apply last_Some_elem_of in Hlast. by rewrite Hin.
  - intros Hel. by rewrite Hin.
  - by intros ->.
  - by intros ->.
Qed.

Lemma datetime_dedup_whole_list_witness :
  ∃ d, transform_helper (playing "A" "X" (AStr "t1")) (Some record_AX) = Ok d ∧
    (last [EAtom (AStr "t1"); EAtom (AStr "t2")] = Some (EAtom (AStr "t1")) →
       d !! "datetime" = Some (List [EAtom (AStr "t1"); EAtom (AStr "t2")])) ∧
    (EAtom (AStr "t1") ∈ [EAtom (AStr "t1"); EAtom (AStr "t2")] →
       d !! "datetime" = Some (List [EAtom (AStr "t1"); EAtom (AStr "t2")])) ∧
    (existsb (py_eq (EAtom (AStr "t1"))) [EAtom (AStr "t1"); EAtom (AStr "t2")] = true →
       d !! "datetime" = Some (List [EAtom (AStr "t1"); EAtom (AStr "t2")])) ∧
    (existsb (py_eq (EAtom (AStr "t1"))) [EAtom (AStr "t1"); EAtom (AStr "t2")] = false →
       d !! "datetime" =
         Some (List ([EAtom (AStr "t1"); EAtom (AStr "t2")] ++ [EAtom (AStr "t1")]))).
Proof.
  apply (datetime_dedup_whole_list (playing "A" "X" (AStr "t1")) (Some record_AX)
           [EAtom (AStr "t1"); EAtom (AStr "t2")]); reflexivity.
Defined.

(** ** C10: a merged record always has a last timestamp *)

(** C10: the merge of a record of the schema yields a record whose
    [datetime] is a non-empty list (it is [[start]] when the list was empty
    or missing), and when the pointer cache holds a record with that
    [datetime], [last_played_start] returns its last entry. *)
Theorem merged_datetime_nonempty (extraction_data : snapshot)
    (existing : option doc) :
  well_formed (start_doc existing) = true →
  ∃ d l x, transform_helper extraction_data existing = Ok d ∧
    d !! "datetime" = Some (List (l ++ [x])) ∧
    (get_list "datetime" (start_doc existing) = List [] →
       l = [] ∧ x = EAtom (start extraction_data)) ∧
    ∀ (self : ETL) (r : ref) (d' : doc),
      last_played self = Some r → objects self !! r = Some d' →
      d' !! "datetime" = d !! "datetime" →
      last_played_start self = Ok x.
Proof.
  intros Hwf.
  destruct (well_formed_inv _ Hwf) as (l0 & cs & a & k & Hl & Hcs & Ha & Hk).
  assert (∃ l x, add_new (EAtom (start extraction_data)) l0 = l ++ [x] ∧
                 (l0 = [] → l = [] ∧ x = EAtom (start extraction_data)))
    as (l & x & Hadd & Hnil).
  { unfold add_new. destruct (existsb _ l0) eqn:Hex.
    - destruct (last l0) as [x|] eqn:Hlast.
      + apply last_Some in Hlast as [l ->]. exists l, x. split; [done|].
        intros Heq. by destruct l.
      + apply last_None in Hlast as ->. discriminate.
    - exists l0, (EAtom (start extraction_data)). split; [done|]. by intros ->. }
  exists (<["artwork" := List (image_list (creativeArts extraction_data))]>
          (<["play_count" := Elem (EAtom (AInt (k + 1)))]>
           (<["channels" := List (add_new (channel_data extraction_data) cs)]>
            (<["datetime" := List (add_new (EAtom (start extraction_data)) l0)]>
             (<["artist" := name_doc (artist_name extraction_data)]>
              (<["song" := name_doc (song_name extraction_data)]>
               (<["album" := name_doc (album_name extraction_data)]>
                (start_doc existing)))))))), l, x.
  split; [by apply (transform_helper_eq _ _ l0 cs a k)|].
  rewrite !lookup_insert_ne, lookup_insert_eq, Hadd by done.
  split; [done|]. split.
  - intros Hnone. rewrite Hl in Hnone. injection Hnone as ->. by apply Hnil.
  - intros self r d' Hlp Hobj Hdt. unfold last_played_start, deref.
    rewrite Hlp, Hobj. simpl.
    assert (truthy d' = true) as ->.
    { apply bool_decide_eq_true. intros ->. by rewrite lookup_empty in Hdt. }
    rewrite Hdt. simpl. by rewrite last_snoc.
Qed.

Lemma merged_datetime_nonempty_witness :
  ∃ d l x, transform_helper (playing "A" "X" (AStr "t3")) (Some record_AX) = Ok d ∧
    d !! "datetime" = Some (List (l ++ [x])) ∧
    (get_list "datetime" (start_doc (Some record_AX)) = List [] →
       l = [] ∧ x = EAtom (start (playing "A" "X" (AStr "t3")))) ∧
    ∀ (self : ETL) (r : ref) (d' : doc),
      last_played self = Some r → objects self !! r = Some d' →
      d' !! "datetime" = d !! "datetime" →
      last_played_start self = Ok x.
Proof.
  apply (merged_datetime_nonempty (playing "A" "X" (AStr "t3")) (Some record_AX)).
  reflexivity.
Defined.

(** ** C8: channel triples are de-duplicated *)

Lemma add_new_elem_of (x : elem) (l : list elem) :
  existsb (py_eq x) (add_new x l) = true.
Proof.
  unfold add_new. destruct (existsb (py_eq x) l) eqn:Hx; [done|].
  rewrite existsb_app. simpl. by rewrite py_eq_refl, orb_true_r.
Qed.

Lemma add_new_idemp (x : elem) (l : list elem) :
  add_new x (add_new x l) = add_new x l.
Proof. unfold add_new at 1. by rewrite add_new_elem_of. Qed.

Lemma add_new_cases (x : elem) (l : list elem) :
  add_new x l = l ∨ ((x ∉ l) ∧ add_new x l = l ++ [x]).
Proof.
  unfold add_new. destruct (existsb (py_eq x) l) eqn:Hx; [by left|].
  right. split; [by apply existsb_py_eq_false_not_elem_of | done].
Qed.

(** One merge: the outcome is again a record of the schema, and its
    channels are the old ones with the snapshot's triple added if new. *)
Lemma transform_helper_channels (s : snapshot) (existing : option doc)
    (cs : list elem) :
  well_formed (start_doc existing) = true →
  get_list "channels" (start_doc existing) = List cs →
  ∃ d, transform_helper s existing = Ok d ∧ well_formed d = true ∧
       d !! "channels" = Some (List (add_new (channel_data s) cs)).
Proof.
  intros Hwf Hcs.
  destruct (well_formed_inv _ Hwf) as (l & cs' & a & k & Hl & Hcs' & Ha & Hk).
  rewrite Hcs in Hcs'. injection Hcs' as <-.
  eexists. split; [by apply (transform_helper_eq _ _ l cs a k)|]. split.
  - unfold well_formed, get_list.
    rewrite !lookup_insert_ne by done. rewrite lookup_insert_eq.
    rewrite !lookup_insert_ne by done. rewrite lookup_insert_eq.
    rewrite lookup_insert_ne by done. rewrite lookup_insert_eq. done.
  - by rewrite !lookup_insert_ne, lookup_insert_eq by done.
Qed.

Lemma merge_all_channels (c : elem) (snapshots : list snapshot) :
  ∀ (existing : doc) (cs : list elem),
    well_formed existing = true →
    get_list "channels" existing = List cs →
    (∀ s, s ∈ snapshots → channel_data s = c) →
    ∃ d, merge_all snapshots existing = Ok d ∧
         get_list "channels" d =
           List (match snapshots with [] => cs | _ => add_new c cs end).
Proof.
  induction snapshots as [|s rest IH]; intros existing cs Hwf Hcs Hall.
  - by exists existing.
  - destruct (transform_helper_channels s (Some existing) cs Hwf Hcs)
      as (d1 & Hd1 & Hwf1 & Hcs1).
    rewrite (Hall s) in Hcs1 by apply list_elem_of_here.
    destruct (IH d1 (add_new c cs) Hwf1) as (d & Hd & Hcsd).
    { unfold get_list. by rewrite Hcs1. }
    { intros s' Hs'. apply Hall. by apply list_elem_of_further. }
    exists d. simpl. rewrite Hd1. simpl. split; [done|].
    rewrite Hcsd. destruct rest; [done|]. by rewrite add_new_idemp.
Qed.

(** C8: merging a snapshot whose channel triple is already in [channels]
    leaves [channels] as it is; after any number of merges of snapshots
    with one and the same triple, [channels] is the old list or the old
    list with that triple added once, and a list without duplicates stays
    without duplicates. *)
Theorem channels_dedup (snapshots : list snapshot) (c : elem)
    (existing : doc) (cs : list elem) :
  well_formed existing = true →
  get_list "channels" existing = List cs →
  (∀ s, s ∈ snapshots → channel_data s = c) →
  (∀ s, channel_data s = c → c ∈ cs →
     ∃ d, transform_helper s (Some existing) = Ok d ∧
          d !! "channels" = Some (List cs)) ∧
  ∃ d cs', merge_all snapshots existing = Ok d ∧
    get_list "channels" d = List cs' ∧
    (c ∈ cs → cs' = cs) ∧
    (cs' = cs ∨ ((c ∉ cs) ∧ cs' = cs ++ [c])) ∧
    (NoDup cs → NoDup cs').
Proof.
  intros Hwf Hcs Hall. split.
  - intros s Hs Hin.
    destruct (transform_helper_channels s (Some existing) cs Hwf Hcs)
      as (d & Hd & _ & Hch).
    exists d. split; [done|]. rewrite Hch, Hs. unfold add_new.
    by rewrite existsb_py_eq_elem_of.
  - destruct (merge_all_channels c snapshots existing cs Hwf Hcs Hall)
      as (d & Hd & Hch).
    exists d, (match snapshots with [] => cs | _ => add_new c cs end).
    split; [done|]. split; [done|].
    assert (c ∈ cs → add_new c cs = cs) as Hsame.
    { intros Hin. unfold add_new. by rewrite existsb_py_eq_elem_of. }
    split; [|split].
    + intros Hin. destruct snapshots; [done | by apply Hsame].
    + destruct snapshots; [by left | apply add_new_cases].
    + intros Hnd. destruct snapshots; [done|].
      destruct (add_new_cases c cs) as [-> | [Hnin ->]]; [done|].
      apply NoDup_app. split; [done|]. split.
      * intros x Hx Hx'. apply list_elem_of_singleton in Hx' as ->. done.
      * apply NoDup_singleton.
Qed.

Lemma channels_dedup_witness :
  (∀ s, channel_data s = channel_data (playing "A" "X" ANone) →
     channel_data (playing "A" "X" ANone) ∈ [channel_data (playing "A" "X" ANone)] →
     ∃ d, transform_helper s (Some record_AX) = Ok d ∧
          d !! "channels" = Some (List [channel_data (playing "A" "X" ANone)])) ∧
  ∃ d cs',
    merge_all [playing "A" "X" (AStr "t3"); playing "A" "X" (AStr "t4")] record_AX = Ok d ∧
    get_list "channels" d = List cs' ∧
    (channel_data (playing "A" "X" ANone) ∈ [channel_data (playing "A" "X" ANone)] →
       cs' = [channel_data (playing "A" "X" ANone)]) ∧
    (cs' = [channel_data (playing "A" "X" ANone)] ∨
     ((channel_data (playing "A" "X" ANone) ∉ [channel_data (playing "A" "X" ANone)]) ∧
      cs' = [channel_data (playing "A" "X" ANone)] ++ [channel_data (playing "A" "X" ANone)])) ∧
    (NoDup [channel_data (playing "A" "X" ANone)] → NoDup cs').
Proof.
  apply (channels_dedup [playing "A" "X" (AStr "t3"); playing "A" "X" (AStr "t4")]
           (channel_data (playing "A" "X" ANone)) record_AX
           [channel_data (playing "A" "X" ANone)]).
  - reflexivity.
  - reflexivity.
  - intros s Hs.
    apply elem_of_cons in Hs as [-> | Hs]; [reflexivity|].
    apply elem_of_cons in Hs as [-> | Hs]; [reflexivity|].
    by apply elem_of_nil in Hs.
Defined.

(** ** C2: the change detector *)

(** Once the start differs from [last_played_start], the transform does not
    come back empty-handed: it yields a new document or raises. *)
Lemma transform_changed (collation_eq : atom → atom → bool)
    (faults : store_op → bool) (currently_playing : snapshot) (self : ETL)
    (started : elem) :
  last_played_start self = Ok started →
  py_eq started (EAtom (start currently_playing)) = false →
  ∀ updates, transform collation_eq faults currently_playing self ≠ Ok (None, updates).
Proof.
  intros Hs Hne updates. unfold transform. rewrite Hs. simpl. rewrite Hne. simpl.
  destruct (get_existing _ _ _ _) as [existing|e]; simpl; [|done].
  destruct (truthy_opt existing); simpl.
  - by destruct (transform_helper _ existing).
  - by destruct (transform_helper _ None).
Qed.

Lemma transform_unchanged (collation_eq : atom → atom → bool)
    (faults : store_op → bool) (currently_playing : snapshot) (self : ETL)
    (started : elem) :
  last_played_start self = Ok started →
  py_eq started (EAtom (start currently_playing)) = true →
  transform collation_eq faults currently_playing self = Ok (None, None).
Proof. intros Hs Heq. unfold transform. rewrite Hs. simpl. by rewrite Heq. Qed.

(** C2, as stated, fails: without a pointer, a snapshot whose start is
    [None] is skipped, not processed, although the song is new to the
    store's pointer. *)
Lemma no_pointer_none_start_skipped :
  last_played (fresh_etl (Some db_AX) true) = None ∧
  transform atom_eqb no_faults (playing "A" "X" ANone) (fresh_etl (Some db_AX) true)
    = Ok (None, None) ∧
  extract_transform_load atom_eqb no_faults (playing "A" "X" ANone)
    (fresh_etl (Some db_AX) true) = (fresh_etl (Some db_AX) true, Ok tt).
Proof. repeat split; reflexivity. Qed.

(** C2 (amended): the cycle is skipped exactly when [last_played_start]
    equals the snapshot's start, where [last_played_start] is the last
    [datetime] entry of the pointer when there is a (non-empty) pointer and
    [None] when there is not. So with a pointer the cycle is skipped
    exactly when its last entry equals the start, and without a pointer
    exactly when the start is [None]: every snapshot with a start other
    than [None] is then processed. *)
Theorem change_detector (collation_eq : atom → atom → bool)
    (faults : store_op → bool) (currently_playing : snapshot) (self : ETL) :
  (∀ started, last_played_start self = Ok started →
     (transform collation_eq faults currently_playing self = Ok (None, None)
      ↔ py_eq started (EAtom (start currently_playing)) = true)) ∧
  (∀ r d l x,
     last_played self = Some r → objects self !! r = Some d →
     d !! "datetime" = Some (List (l ++ [x])) →
     (transform collation_eq faults currently_playing self = Ok (None, None)
      ↔ py_eq x (EAtom (start currently_playing)) = true)) ∧
  (truthy_opt (deref self <$> last_played self) = false →
     (transform collation_eq faults currently_playing self = Ok (None, None)
      ↔ start currently_playing = ANone)).
Proof.
  assert (∀ started, last_played_start self = Ok started →
     (transform collation_eq faults currently_playing self = Ok (None, None)
      ↔ py_eq started (EAtom (start currently_playing)) = true)) as Hgen.
  { intros started Hs. split.
    - intros Hskip.
      destruct (py_eq started (EAtom (start currently_playing))) eqn:Heq; [done|].
      by destruct (transform_changed collation_eq faults _ _ _ Hs Heq None).
    - by apply transform_unchanged. }
  split; [done|]. split.
  - intros r d l x Hlp Hobj Hdt. apply Hgen.
    unfold last_played_start, deref. rewrite Hlp, Hobj. simpl.
    assert (truthy d = true) as ->.
    { apply bool_decide_eq_true. intros ->. by rewrite lookup_empty in Hdt. }
    rewrite Hdt. simpl. by rewrite last_snoc.
  - intros Hnone. rewrite (Hgen (EAtom ANone)).
    + simpl. apply atom_eqb_None.
    + unfold last_played_start. destruct (last_played self) as [r|]; [|done].
      simpl in Hnone. by rewrite Hnone.
Qed.

Lemma change_detector_witness :
  (∀ started, last_played_start (fresh_etl (Some db_AX) true) = Ok started →
     (transform atom_eqb no_faults (playing "A" "X" (AStr "t1"))
        (fresh_etl (Some db_AX) true) = Ok (None, None)
      ↔ py_eq started (EAtom (AStr "t1")) = true)) ∧
  (∀ r d l x,
     last_played (fresh_etl (Some db_AX) true) = Some r →
     objects (fresh_etl (Some db_AX) true) !! r = Some d →
     d !! "datetime" = Some (List (l ++ [x])) →
     (transform atom_eqb no_faults (playing "A" "X" (AStr "t1"))
        (fresh_etl (Some db_AX) true) = Ok (None, None)
      ↔ py_eq x (EAtom (AStr "t1")) = true)) ∧
  (truthy_opt (deref (fresh_etl (Some db_AX) true)
                 <$> last_played (fresh_etl (Some db_AX) true)) = false →
     (transform atom_eqb no_faults (playing "A" "X" (AStr "t1"))
        (fresh_etl (Some db_AX) true) = Ok (None, None)
      ↔ AStr "t1" = ANone)).
Proof.
  exact (change_detector atom_eqb no_faults (playing "A" "X" (AStr "t1"))
           (fresh_etl (Some db_AX) true)).
Defined.

(** ** C5: a song without a record is inserted *)



(** ** C4: a repeated song is updated *)

(** The transform of a changed song that has a record. *)
Lemma transform_existing_eq (collation_eq : atom → atom → bool)
    (faults : store_op → bool) (currently_playing : snapshot) (self : ETL)
    (started : elem) (existing d : doc) :
  last_played_start self = Ok started →
  py_eq started (EAtom (start currently_playing)) = false →
  get_existing collation_eq faults currently_playing self = Ok (Some existing) →
  truthy existing = true →
  transform_helper currently_playing (Some existing) = Ok d →
  transform collation_eq faults currently_playing self
    = Ok (Some d, Some (filter (λ kv, kv.1 ∉ index_keys) d)).
Proof.
  intros Hs Hne Hex Ht Hd. unfold transform.
  rewrite Hs. simpl. rewrite Hne. simpl. rewrite Hex. simpl.
  by rewrite Ht, Hd.
Qed.


(** C4, as stated, fails: the record has plays at t1 and t2, the snapshot
    started at t1, which differs from the record's last entry t2, and yet
    the merged [datetime] is not extended by t1 (the play is counted). *)
Lemma repeat_of_earlier_start_not_extended :
  get_existing atom_eqb no_faults (playing "A" "X" (AStr "t1"))
    (fresh_etl (Some db_AX) true) = Ok (Some record_AX) ∧
  record_AX !! "play_count" = Some (Elem (EAtom (AInt 2))) ∧
  record_AX !! "datetime" = Some (List [EAtom (AStr "t1"); EAtom (AStr "t2")]) ∧
  py_eq (EAtom (AStr "t2")) (EAtom (AStr "t1")) = false ∧
  ∃ d updates,
    transform atom_eqb no_faults (playing "A" "X" (AStr "t1"))
      (fresh_etl (Some db_AX) true) = Ok (Some d, Some updates) ∧
    d !! "play_count" = Some (Elem (EAtom (AInt 3))) ∧
    d !! "datetime" = Some (List [EAtom (AStr "t1"); EAtom (AStr "t2")]) ∧
    d !! "datetime" ≠
      Some (List [EAtom (AStr "t1"); EAtom (AStr "t2"); EAtom (AStr "t1")]).
Proof.
  split; [reflexivity|]. split; [reflexivity|].
  split; [reflexivity|]. split; [reflexivity|].
  assert ((d ← transform_helper (playing "A" "X" (AStr "t1")) (Some record_AX);
           mret (d !! "play_count", d !! "datetime"))
          = Ok (Some (Elem (EAtom (AInt 3))),
                Some (List [EAtom (AStr "t1"); EAtom (AStr "t2")]))) as Hrun
    by (vm_compute; reflexivity).
  destruct (transform_helper _ _) as [d|] eqn:Hd; [|discriminate].
  injection Hrun as Hc Hdt.
  exists d, (filter (λ kv, kv.1 ∉ index_keys) d). split.
  - apply (transform_existing_eq atom_eqb no_faults (playing "A" "X" (AStr "t1"))
             (fresh_etl (Some db_AX) true) (EAtom ANone) record_AX);
      [reflexivity | reflexivity | reflexivity | reflexivity | exact Hd].
  - rewrite Hc, Hdt. split; [reflexivity|]. split; [reflexivity | discriminate].
Qed.

(** C4 (amended): when the song has changed and the store holds a record
    for it with [play_count = k], the transform returns the merged record
    and its updates; the merged record has [play_count = k + 1]; its
    [datetime] is the record's, extended by the snapshot's start unless
    that start already occurs anywhere in it; and the updates hold every
    field of the merged record except [_id], [album], [song], [artist] and
    [artwork], and nothing else. *)
Theorem repeat_song_update (collation_eq : atom → atom → bool)
    (faults : store_op → bool) (currently_playing : snapshot) (self : ETL)
    (started : elem) (existing : doc) (k : Z) (l : list elem) :
  last_played_start self = Ok started →
  py_eq started (EAtom (start currently_playing)) = false →
  get_existing collation_eq faults currently_playing self = Ok (Some existing) →
  well_formed existing = true →
  existing !! "play_count" = Some (Elem (EAtom (AInt k))) →
  get_list "datetime" existing = List l →
  ∃ d updates,
    transform collation_eq faults currently_playing self = Ok (Some d, Some updates) ∧
    d !! "play_count" = Some (Elem (EAtom (AInt (k + 1)))) ∧
    d !! "datetime" =
      Some (List (if existsb (py_eq (EAtom (start currently_playing))) l
                  then l else l ++ [EAtom (start currently_playing)])) ∧
    (∀ key, key ∉ index_keys → updates !! key = d !! key) ∧
    (∀ key, key ∈ index_keys → updates !! key = None).
Proof.
  intros Hs Hne Hex Hwf Hk Hl.
  destruct (well_formed_inv _ Hwf) as (l' & cs & a & k' & Hl' & Hcs & Ha & Hk').
  rewrite Hl in Hl'. injection Hl' as <-.
  rewrite Hk in Ha. simpl in Ha. injection Ha as <-. injection Hk' as <-.
  pose proof (transform_helper_eq currently_playing (Some existing) l cs (AInt k) k
                Hl Hcs) as Hd.
  simpl in Hd. rewrite Hk in Hd. specialize (Hd eq_refl eq_refl).
  eexists _, _. split.
  - unfold transform. rewrite Hs. simpl. rewrite Hne. simpl. rewrite Hex. simpl.
    assert (truthy existing = true) as ->.
    { apply bool_decide_eq_true. intros ->. by rewrite lookup_empty in Hk. }
    rewrite Hd. reflexivity.
  - split; [by rewrite !lookup_insert_ne, !lookup_insert_eq by done|].
    split; [by rewrite !lookup_insert_ne, !lookup_insert_eq by done|].
    split.
    + intros key Hkey. apply option_eq. intros v.
      rewrite map_lookup_filter_Some. simpl. split; [by intros [? _] | by intros ?].
    + intros key Hkey. apply map_lookup_filter_None. right.
      intros v _ Hnot. simpl in Hnot. done.
Qed.

Lemma repeat_song_update_witness :
  ∃ d updates,
    transform atom_eqb no_faults (playing "A" "X" (AStr "t3"))
      (fresh_etl (Some db_AX) true) = Ok (Some d, Some updates) ∧
    d !! "play_count" = Some (Elem (EAtom (AInt (2 + 1)))) ∧
    d !! "datetime" =
      Some (List (if existsb (py_eq (EAtom (AStr "t3")))
                       [EAtom (AStr "t1"); EAtom (AStr "t2")]
                  then [EAtom (AStr "t1"); EAtom (AStr "t2")]
                  else [EAtom (AStr "t1"); EAtom (AStr "t2")] ++ [EAtom (AStr "t3")])) ∧
    (∀ key, key ∉ index_keys → updates !! key = d !! key) ∧
    (∀ key, key ∈ index_keys → updates !! key = None).
Proof.
  apply (repeat_song_update atom_eqb no_faults (playing "A" "X" (AStr "t3"))
           (fresh_etl (Some db_AX) true) (EAtom ANone) record_AX 2
           [EAtom (AStr "t1"); EAtom (AStr "t2")]); reflexivity.
Defined.

(** ** The equations of the stateful methods *)

Lemma deref_set_last_played lp self r :
  deref (set_last_played lp self) r = deref self r.
Proof. done. Qed.

Lemma deref_set_database db self r :
  deref (set_database db self) r = deref self r.
Proof. done. Qed.

Lemma deref_set_next_oid n self r :
  deref (set_next_oid n self) r = deref self r.
Proof. done. Qed.

Lemma truthy_valid (self : ETL) (r : ref) :
  truthy (deref self r) = true → objects self !! r = Some (deref self r).
Proof.
  unfold deref. destruct (objects self !! r) as [d|]; [done|]. simpl.
  intros H. apply bool_decide_eq_true in H. done.
Qed.

Lemma deref_put_object (self : ETL) (r : ref) (d : doc) :
  truthy (deref self r) = true → deref (put_object r d self) r = d.
Proof.
  intros Ht. apply truthy_valid in Ht. unfold deref, put_object. simpl.
  rewrite list_lookup_insert_eq; [done|]. by eapply lookup_lt_Some.
Qed.

Lemma run_bind {A B} (m : action A) (f : A → action B) (s : ETL) :
  (m ≫= f) s = match m s with
               | (s', Ok a) => f a s'
               | (s', Raise e) => (s', Raise e)
               end.
Proof. reflexivity. Qed.

Lemma run_get_self {B} (f : ETL → action B) (s : ETL) :
  (get_self ≫= f) s = f s s.
Proof. reflexivity. Qed.

Lemma run_modify {B} (g : ETL → ETL) (f : unit → action B) (s : ETL) :
  (modify g ≫= f) s = f tt (g s).
Proof. reflexivity. Qed.

Lemma run_store_call {B} (faults : store_op → bool) (op : store_op)
    (f : unit → action B) (s : ETL) :
  (store_call faults op ≫= f) s =
    if faults op then (s, Raise StoreError) else f tt s.
Proof. unfold store_call. by destruct (faults op). Qed.

Lemma run_assoc {A B C} (m : action A) (f : A → action B) (g : B → action C)
    (s : ETL) :
  ((m ≫= f) ≫= g) s = (m ≫= λ a, f a ≫= g) s.
Proof. rewrite !run_bind. by destruct (m s) as [s' [a|e]]. Qed.

Lemma run_set_item {B} (r : ref) (key : string) (v : value)
    (f : unit → action B) (s : ETL) :
  (set_item r key v ≫= f) s = f tt (put_object r (<[key := v]> (deref s r)) s).
Proof. reflexivity. Qed.

Lemma write_collection_eq (name : string) (g : list doc → result (list doc))
    (s : ETL) (db : Database) :
  database s = Some db →
  write_collection name g s =
    match g (collection db name) with
    | Ok c => (set_database (Some (set_collection db name c)) s, Ok tt)
    | Raise e => (s, Raise e)
    end.
Proof.
  intros Hdb. unfold write_collection. rewrite run_get_self, Hdb.
  rewrite run_bind. unfold lift. by destruct (g _).
Qed.

Lemma update_last_played_truthy (faults : store_op → bool) (r : ref) (s : ETL) :
  truthy (deref s r) = true →
  update_last_played faults (Some r) s = (set_last_played (Some r) s, Ok tt).
Proof.
  intros Ht. unfold update_last_played. rewrite run_get_self. simpl.
  by rewrite Ht.
Qed.

Lemma ensure_id_eq (r : ref) (s : ETL) :
  truthy (deref s r) = true →
  ensure_id r s =
    (match deref s r !! "_id" with
     | Some _ => s
     | None => set_next_oid (N.succ (next_oid s)) (put_object r (ensured s r) s)
     end, Ok tt).
Proof.
  intros Ht. unfold ensure_id, ensured. rewrite run_get_self.
  destruct (deref s r !! "_id"); [done|].
  by rewrite run_set_item.
Qed.

Lemma load_no_write (collation_eq : atom → atom → bool)
    (faults : store_op → bool) (currently_playing : snapshot)
    (r : ref) (updates : option doc) (s : ETL) :
  truthy (deref s r) = true →
  database s = None ∨ database_write s = false →
  load collation_eq faults currently_playing r updates s
    = (set_last_played (Some r) s, Ok tt).
Proof.
  intros Ht Hoff. unfold load.
  rewrite run_bind, update_last_played_truthy by done.
  rewrite run_get_self. simpl.
  destruct Hoff as [-> | ->]; [done|]. by rewrite andb_false_r.
Qed.

Lemma load_update (collation_eq : atom → atom → bool)
    (faults : store_op → bool) (currently_playing : snapshot)
    (r : ref) (updates : option doc) (s : ETL) (db : Database) :
  truthy (deref s r) = true →
  database s = Some db → database_write s = true →
  truthy_opt updates = true →
  load collation_eq faults currently_playing r updates s =
    let s1 := set_last_played (Some r) s in
    let db1 := set_collection db (collection_name s)
                 (update_one (existing_filter collation_eq currently_playing)
                             (default ∅ updates)
                             (collection db (collection_name s))) in
    let d := with_id (channel (pss_channel s)) (deref s r) in
    let s2 := put_object r d (set_database (Some db1) s1) in
    if faults OpUpdateOne then (s1, Raise StoreError)
    else if faults OpReplaceOne then (s2, Raise StoreError)
    else (set_database
            (Some (set_collection db1 "last_played"
                     (replace_one (id_filter (channel (pss_channel s))) d
                                  (collection db1 "last_played")))) s2,
          Ok tt).
Proof.
  intros Ht Hdb Hw Hu. unfold load.
  rewrite run_bind, update_last_played_truthy by done.
  rewrite run_get_self. simpl. rewrite Hdb, Hw, Hu. simpl.
  rewrite !run_assoc, run_store_call.
  destruct (faults OpUpdateOne); [done|].
  rewrite run_bind, (write_collection_eq _ _ _ db) by done.
  rewrite run_set_item, run_store_call.
  destruct (faults OpReplaceOne); [done|].
  rewrite run_get_self.
  erewrite write_collection_eq by reflexivity.
  rewrite deref_put_object by done. reflexivity.
Qed.

Lemma load_insert (collation_eq : atom → atom → bool)
    (faults : store_op → bool) (currently_playing : snapshot)
    (r : ref) (updates : option doc) (s : ETL) (db : Database) :
  truthy (deref s r) = true →
  database s = Some db → database_write s = true →
  truthy_opt updates = false →
  load collation_eq faults currently_playing r updates s =
    let s1 := set_last_played (Some r) s in
    let s2 := match deref s r !! "_id" with
              | Some _ => s1
              | None => set_next_oid (N.succ (next_oid s))
                          (put_object r (ensured s r) s1)
              end in
    let d := with_id (channel (pss_channel s)) (ensured s r) in
    if faults OpInsertOne then (s2, Raise StoreError)
    else match insert_doc (ensured s r) (collection db (collection_name s)) with
         | Raise e => (s2, Raise e)
         | Ok c =>
             let db1 := set_collection db (collection_name s) c in
             let s3 := put_object r d (set_database (Some db1) s2) in
             if faults OpReplaceOne then (s3, Raise StoreError)
             else (set_database
                     (Some (set_collection db1 "last_played"
                              (replace_one (id_filter (channel (pss_channel s))) d
                                           (collection db1 "last_played")))) s3,
                   Ok tt)
         end.
Proof.
  intros Ht Hdb Hw Hu. unfold load.
  rewrite run_bind, update_last_played_truthy by done.
  rewrite run_get_self. simpl. rewrite Hdb, Hw, Hu. simpl.
  rewrite !run_assoc, run_bind, ensure_id_eq by done.
  assert (deref (match deref (set_last_played (Some r) s) r !! "_id" with
                 | Some _ => set_last_played (Some r) s
                 | None => set_next_oid (N.succ (next_oid (set_last_played (Some r) s)))
                             (put_object r (ensured (set_last_played (Some r) s) r)
                                (set_last_played (Some r) s))
                 end) r = ensured s r) as Hens.
  { unfold ensured. rewrite !deref_set_last_played.
    destruct (deref s r !! "_id"); [done|].
    by rewrite deref_set_next_oid, deref_put_object. }
  set (s2 := match deref (set_last_played (Some r) s) r !! "_id" with
             | Some _ => _ | None => _ end) in *.
  assert (database s2 = Some db) as Hdb2
    by (unfold s2; by destruct (deref _ r !! "_id")).
  assert (truthy (deref s2 r) = true) as Ht2.
  { rewrite Hens. unfold ensured.
    destruct (deref s r !! "_id"); [done|].
    apply bool_decide_eq_true. apply insert_non_empty. }
  rewrite !run_assoc, run_store_call. destruct (faults OpInsertOne); [done|].
  rewrite !run_assoc, run_get_self, run_bind.
  rewrite (write_collection_eq _ _ _ db), Hens by done.
  destruct (insert_doc _ _) as [c|e]; [|done].
  rewrite run_set_item, run_store_call.
  destruct (faults OpReplaceOne); [by rewrite deref_set_database, Hens|].
  rewrite run_get_self.
  erewrite write_collection_eq by reflexivity.
  rewrite deref_put_object by done. by rewrite deref_set_database, Hens.
Qed.

Lemma truthy_lt (self : ETL) (r : ref) :
  truthy (deref self r) = true → (r < length (objects self))%nat.
Proof. intros Ht. apply truthy_valid in Ht. by eapply lookup_lt_Some. Qed.

Lemma deref_put_object_lt (self : ETL) (r : ref) (d : doc) :
  (r < length (objects self))%nat → deref (put_object r d self) r = d.
Proof.
  intros Hlt. unfold deref, put_object. simpl.
  by rewrite list_lookup_insert_eq.
Qed.

(** Reading the object [r] back out of a state [load] has left. *)
Ltac read_object Hlt :=
  repeat first
    [ rewrite deref_set_database
    | rewrite deref_set_next_oid
    | rewrite deref_set_last_played
    | rewrite deref_put_object_lt by (simpl; rewrite ?length_insert; exact Hlt) ].

(** ** C7: the pointer cache is set first, whatever the store does *)

(** C7: [load] on a non-empty document (every merged record is one) leaves
    the pointer cache referring to that document, whichever store calls
    fail and whether or not persistence is on; the document still has
    every field of the merged record (only [_id] may have been assigned).
    With persistence off [load] does nothing else and returns normally;
    and when the first write it attempts fails, the cache is set although
    the database has not changed. *)
Theorem load_sets_cache_first (collation_eq : atom → atom → bool)
    (faults : store_op → bool) (currently_playing : snapshot)
    (new_doc : ref) (doc_updates : option doc) (self : ETL) :
  truthy (deref self new_doc) = true →
  ∃ self' res,
    load collation_eq faults currently_playing new_doc doc_updates self = (self', res) ∧
    last_played self' = Some new_doc ∧
    (∀ key, key ≠ "_id" → deref self' new_doc !! key = deref self new_doc !! key) ∧
    (database self = None ∨ database_write self = false →
       self' = set_last_played (Some new_doc) self ∧ res = Ok tt) ∧
    (is_Some (database self) → database_write self = true →
       faults OpUpdateOne = true → faults OpInsertOne = true →
       database self' = database self ∧ res = Raise StoreError).
Proof.
  intros Ht. pose proof (truthy_lt _ _ Ht) as Hlt.
  destruct (database self) as [db|] eqn:Hdb.
  2:{ eexists _, _. split; [apply load_no_write; auto|].
      split; [done|]. split; [done|]. split; [done|]. by intros [? ?]. }
  destruct (database_write self) eqn:Hw.
  2:{ eexists _, _. split; [apply load_no_write; auto|].
      split; [done|]. split; [done|]. split; [done|]. by intros _ ?. }
  destruct (truthy_opt doc_updates) eqn:Hu.
  - rewrite (load_update _ _ _ _ _ _ db) by done. cbv zeta.
    destruct (faults OpUpdateOne) eqn:Hfu; [|destruct (faults OpReplaceOne)];
      (eexists _, _; split; [reflexivity|]; split; [reflexivity|]; split;
       [ intros key Hkey; read_object Hlt; unfold with_id;
         by rewrite ?lookup_insert_ne by done
       | split; [by intros [?|?] | intros _ _ Hu1 Hi1; by try congruence ] ]).
  - rewrite (load_insert _ _ _ _ _ _ db) by done. cbv zeta.
    assert (∀ key, key ≠ "_id" →
              ensured self new_doc !! key = deref self new_doc !! key) as Hens.
    { intros key Hkey. unfold ensured, with_id.
      destruct (deref self new_doc !! "_id"); [done|].
      by rewrite lookup_insert_ne. }
    destruct (faults OpInsertOne) eqn:Hfi;
      [|destruct (insert_doc _ _); [destruct (faults OpReplaceOne)|]];
      destruct (deref self new_doc !! "_id") eqn:Hid;
      (eexists _, _; split; [reflexivity|]; split; [reflexivity|]; split;
       [ intros key Hkey; read_object Hlt; unfold with_id;
         rewrite ?lookup_insert_ne by done; by rewrite ?Hens by done
       | split; [by intros [?|?] | intros _ _ Hu1 Hi1; by try congruence ] ]).
Qed.

Lemma load_sets_cache_first_witness :
  ∃ self' res,
    load atom_eqb no_faults (playing "A" "X" (AStr "t2")) 0%nat None
      (holding record_AX (fresh_etl (Some db_AX) false)) = (self', res) ∧
    last_played self' = Some 0%nat ∧
    (∀ key, key ≠ "_id" →
       deref self' 0%nat !! key
       = deref (holding record_AX (fresh_etl (Some db_AX) false)) 0%nat !! key) ∧
    (database (holding record_AX (fresh_etl (Some db_AX) false)) = None
     ∨ database_write (holding record_AX (fresh_etl (Some db_AX) false)) = false →
       self' = set_last_played (Some 0%nat)
                 (holding record_AX (fresh_etl (Some db_AX) false))
       ∧ res = Ok tt) ∧
    (is_Some (database (holding record_AX (fresh_etl (Some db_AX) false))) →
     database_write (holding record_AX (fresh_etl (Some db_AX) false)) = true →
     no_faults OpUpdateOne = true → no_faults OpInsertOne = true →
       database self' = database (holding record_AX (fresh_etl (Some db_AX) false))
       ∧ res = Raise StoreError).
Proof.
  apply (load_sets_cache_first atom_eqb no_faults (playing "A" "X" (AStr "t2"))
           0%nat None (holding record_AX (fresh_etl (Some db_AX) false))).
  reflexivity.
Defined.

(** ** C9: a failed fetch ends the cycle without a write *)

(** C9: when the snapshot's status is false, the cycle returns normally
    after logging the error with the channel's name and url and the
    request url. Whatever the store would do and whatever the pointer
    cache holds, nothing else happens: the database, the pointer cache and
    the dict objects are as before. *)
Theorem failed_fetch_writes_nothing (collation_eq : atom → atom → bool)
    (faults : store_op → bool) (currently_playing : snapshot) (self : ETL) :
  status currently_playing = false →
  ∃ self',
    extract_transform_load collation_eq faults currently_playing self
      = (self', Ok tt) ∧
    log self' = log self ++ [LogError (name (pss_channel self))
                                      (url (pss_channel self))
                                      (request_url currently_playing)] ∧
    database self' = database self ∧
    last_played self' = last_played self ∧
    objects self' = objects self ∧
    history self' = history self ∧
    pointer self' = pointer self.
Proof.
  intros Hst. unfold extract_transform_load. rewrite Hst.
  eexists. split; [reflexivity|]. repeat split.
Qed.

Lemma failed_fetch_writes_nothing_witness :
  ∃ self',
    extract_transform_load atom_eqb no_faults
      {| status := false; start := ANone; artist_name := ANone; song_name := ANone;
         album_name := ANone; channelId := ANone; channelNumber := ANone;
         channelName := ANone; creativeArts := []; request_url := "http://player/now" |}
      (fresh_etl (Some db_AX) true) = (self', Ok tt) ∧
    log self' = log (fresh_etl (Some db_AX) true)
                ++ [LogError (name (pss_channel (fresh_etl (Some db_AX) true)))
                             (url (pss_channel (fresh_etl (Some db_AX) true)))
                             "http://player/now"] ∧
    database self' = database (fresh_etl (Some db_AX) true) ∧
    last_played self' = last_played (fresh_etl (Some db_AX) true) ∧
    objects self' = objects (fresh_etl (Some db_AX) true) ∧
    history self' = history (fresh_etl (Some db_AX) true) ∧
    pointer self' = pointer (fresh_etl (Some db_AX) true).
Proof.
  apply (failed_fetch_writes_nothing atom_eqb no_faults
           {| status := false; start := ANone; artist_name := ANone;
              song_name := ANone; album_name := ANone; channelId := ANone;
              channelNumber := ANone; channelName := ANone; creativeArts := [];
              request_url := "http://player/now" |}
           (fresh_etl (Some db_AX) true)).
  reflexivity.
Defined.

(** ** C6: the pointer document is replaced when persistence is on *)

Lemma find_first_replace_one (f : doc → bool) (d : doc) (c : list doc) :
  f d = true → snd <$> find_first f (replace_one f d c) = Some d.
Proof.
  intros Hd. unfold replace_one, find_first.
  destruct (list_find (λ d', f d' = true) c) as [[i x]|] eqn:Hfind.
  - apply list_find_Some in Hfind as (Hi & Hx & Hleast).
    assert (list_find (λ d', f d' = true) (<[i := d]> c) = Some (i, d)) as ->; [|done].
    apply list_find_Some. split; [|split; [done|]].
    + apply list_lookup_insert_eq. by eapply lookup_lt_Some.
    + intros j y Hj Hlt. rewrite list_lookup_insert_ne in Hj by lia. eauto.
  - assert (list_find (λ d', f d' = true) (c ++ [d]) = Some (length c, d)) as ->; [|done].
    apply list_find_None in Hfind. apply list_find_Some. split; [|split; [done|]].
    + rewrite lookup_app_r by lia. by rewrite Nat.sub_diag.
    + intros j y Hj Hlt. rewrite lookup_app_l in Hj by done.
      rewrite Forall_forall in Hfind. apply Hfind.
      by eapply list_elem_of_lookup_2.
Qed.

Lemma id_filter_with_id (c : atom) (d : doc) : id_filter c (with_id c d) = true.
Proof.
  unfold id_filter, with_id. apply bool_decide_eq_true. apply lookup_insert_eq.
Qed.

Lemma with_id_ensured (c : atom) (s : ETL) (r : ref) :
  with_id c (ensured s r) = with_id c (deref s r).
Proof.
  unfold ensured, with_id. destruct (deref s r !! "_id"); [done|].
  apply insert_insert_eq.
Qed.

Lemma collection_set_collection (db : Database) (name : string) (c : list doc) :
  collection (set_collection db name c) name = c.
Proof. unfold collection, set_collection. simpl. by rewrite lookup_insert_eq. Qed.

Lemma collection_set_collection_ne (db : Database) (name name' : string)
    (c : list doc) :
  name ≠ name' → collection (set_collection db name c) name' = collection db name'.
Proof.
  intros Hne. unfold collection, set_collection. simpl.
  by rewrite lookup_insert_ne.
Qed.

(** C6: after every [load] that returns normally on the insert path or on
    the update path (the two branches [load] has once persistence is on: a
    database, and [database_write] set), the pointer collection's document
    for the channel is the merged record with [_id] set to the channel id,
    whatever pointer was there before. *)
Theorem pointer_replaced (collation_eq : atom → atom → bool)
    (faults : store_op → bool) (currently_playing : snapshot)
    (new_doc : ref) (doc_updates : option doc) (self self' : ETL) :
  truthy (deref self new_doc) = true →
  is_Some (database self) → database_write self = true →
  load collation_eq faults currently_playing new_doc doc_updates self
    = (self', Ok tt) →
  pointer self'
    = Some (with_id (channel (pss_channel self)) (deref self new_doc)).
Proof.
  intros Ht [db Hdb] Hw Hload.
  destruct (truthy_opt doc_updates) eqn:Hu.
  - rewrite (load_update _ _ _ _ _ _ db) in Hload by done. cbv zeta in Hload.
    destruct (faults OpUpdateOne); [done|].
    destruct (faults OpReplaceOne); [done|].
    injection Hload as <-. unfold pointer. simpl.
    rewrite collection_set_collection.
    apply find_first_replace_one, id_filter_with_id.
  - rewrite (load_insert _ _ _ _ _ _ db) in Hload by done. cbv zeta in Hload.
    destruct (faults OpInsertOne); [done|].
    destruct (insert_doc _ _) as [c|e]; [|done].
    destruct (faults OpReplaceOne); [done|].
    injection Hload as <-. unfold pointer.
    rewrite with_id_ensured.
    destruct (deref self new_doc !! "_id"); simpl;
      rewrite collection_set_collection;
      apply find_first_replace_one, id_filter_with_id.
Qed.

Lemma pointer_replaced_witness :
  ∃ self',
    load atom_eqb no_faults (playing "A" "X" (AStr "t2")) 0%nat (Some updates_AX)
      (holding record_AX (fresh_etl (Some db_AX) true)) = (self', Ok tt) ∧
    pointer self' = Some (with_id (AInt 5) record_AX).
Proof.
  eexists. split; [vm_compute; reflexivity|].
  apply (pointer_replaced atom_eqb no_faults (playing "A" "X" (AStr "t2")) 0%nat
           (Some updates_AX) (holding record_AX (fresh_etl (Some db_AX) true))).
  - reflexivity.
  - by eexists.
  - reflexivity.
  - vm_compute. reflexivity.
Defined.

(** ** C3: stored identity fields are never rewritten *)

Lemma history_kept_refl (c : list doc) : history_kept c c.
Proof. intros i ex Hi. by exists ex. Qed.

Lemma history_kept_trans (c1 c2 c3 : list doc) :
  history_kept c1 c2 → history_kept c2 c3 → history_kept c1 c3.
Proof.
  intros H12 H23 i ex Hi.
  destruct (H12 i ex Hi) as (ex2 & Hi2 & Hk2).
  destruct (H23 i ex2 Hi2) as (ex3 & Hi3 & Hk3).
  exists ex3. split; [done|]. intros key Hkey.
  by rewrite Hk3, Hk2.
Qed.

Lemma history_kept_app (c : list doc) (d : doc) : history_kept c (c ++ [d]).
Proof.
  intros i ex Hi. exists ex. split; [|done].
  rewrite lookup_app_l; [done|]. by eapply lookup_lt_Some.
Qed.

Lemma history_kept_insert_doc (c c' : list doc) (d : doc) :
  insert_doc d c = Ok c' → history_kept c c'.
Proof.
  unfold insert_doc. destruct (existsb _ c); [done|].
  intros [= <-]. apply history_kept_app.
Qed.

(** The merge leaves every key it does not assign as it found it. *)
Lemma transform_helper_other_keys (s : snapshot) (existing : option doc)
    (d : doc) (key : string) :
  transform_helper s existing = Ok d →
  key ∉ ["album"; "song"; "artist"; "datetime"; "channels"; "play_count"; "artwork"] →
  d !! key = start_doc existing !! key.
Proof.
  intros Hd Hkey. rewrite !not_elem_of_cons in Hkey.
  destruct Hkey as (? & ? & ? & ? & ? & ? & ? & _).
  unfold transform_helper in Hd.
  replace (match existing with
           | Some d => if truthy d then d else ∅
           | None => ∅
           end) with (start_doc existing) in Hd
    by (destruct existing as [d0|]; simpl; [by rewrite truthy_or_empty|done]).
  destruct (py_reversed _) as [rv|]; simpl in Hd; [|done].
  destruct (py_in _ rv) as [seen|]; simpl in Hd; [|done].
  destruct (negb seen); simpl in Hd;
    [destruct (py_append _ _) as [v|]; simpl in Hd; [|done]|];
    (destruct (py_in _ _) as [known|]; simpl in Hd; [|done]);
    (destruct (negb known); simpl in Hd;
     [destruct (py_append _ _) as [v'|]; simpl in Hd; [|done]|]);
    (destruct (py_incr _) as [count|]; simpl in Hd; [|done]);
    injection Hd as <-; by rewrite !lookup_insert_ne by done.
Qed.

(** Writing the updates of a merge over the record it merged changes none
    of the record's fields other than the mutable ones. *)
Lemma updates_keep_fields (s : snapshot) (ex d : doc) (key : string) :
  transform_helper s (Some ex) = Ok d →
  key ∉ mutable_keys →
  (filter (λ kv, kv.1 ∉ index_keys) d ∪ ex) !! key = ex !! key.
Proof.
  intros Hd Hkey. rewrite lookup_union.
  destruct (decide (key ∈ index_keys)) as [Hin|Hnin].
  - rewrite (proj2 (map_lookup_filter_None _ _ _)).
    + by destruct (ex !! key).
    + right. intros v _ Hv. by apply Hv.
  - assert (d !! key = ex !! key) as Hsame.
    { apply (transform_helper_other_keys s (Some ex)); [done|].
      intros H7. unfold mutable_keys, index_keys in *.
      repeat (apply elem_of_cons in H7 as [-> | H7]);
        [ apply Hnin | apply Hnin | apply Hnin | apply Hkey | apply Hkey
        | apply Hkey | apply Hnin | by apply elem_of_nil in H7 ];
        repeat constructor. }
    destruct (filter _ d !! key) as [v|] eqn:Hf.
    + apply map_lookup_filter_Some in Hf as [Hv _].
      rewrite <- Hsame, Hv. done.
    + by destruct (ex !! key).
Qed.

Lemma history_kept_update_one (f : doc → bool) (s : snapshot) (ex d : doc)
    (i : nat) (c : list doc) :
  find_first f c = Some (i, ex) →
  transform_helper s (Some ex) = Ok d →
  history_kept c (update_one f (filter (λ kv, kv.1 ∉ index_keys) d) c).
Proof.
  intros Hfind Hd. unfold update_one. rewrite Hfind.
  apply list_find_Some in Hfind as (Hi & _ & _).
  intros j ex' Hj. destruct (decide (i = j)) as [<-|Hne].
  - rewrite Hi in Hj. injection Hj as <-.
    eexists. split.
    + apply list_lookup_insert_eq. by eapply lookup_lt_Some.
    + intros key Hkey. by eapply updates_keep_fields.
  - exists ex'. split; [|done]. by rewrite list_lookup_insert_ne.
Qed.

(** Where the updates of a transform come from. *)
Lemma transform_updates_inv (collation_eq : atom → atom → bool)
    (faults : store_op → bool) (s : snapshot) (self : ETL)
    (new_doc : option doc) (u : doc) :
  transform collation_eq faults s self = Ok (new_doc, Some u) →
  ∃ ex d, get_existing collation_eq faults s self = Ok (Some ex) ∧
          transform_helper s (Some ex) = Ok d ∧
          u = filter (λ kv, kv.1 ∉ index_keys) d.
Proof.
  unfold transform. destruct (last_played_start self) as [started|]; simpl; [|done].
  destruct (negb _); simpl; [|done].
  destruct (get_existing _ _ _ _) as [existing|]; simpl; [|done].
  destruct existing as [ex|]; simpl.
  - destruct (truthy ex); simpl.
    + destruct (transform_helper s (Some ex)) as [d|] eqn:Hd; simpl;
        [|discriminate].
      intros [= <- <-]. by exists ex, d.
    + destruct (transform_helper s None); simpl; discriminate.
  - destruct (transform_helper s None); simpl; discriminate.
Qed.

Lemma collection_name_ne_last_played (self : ETL) :
  collection_name self ≠ "last_played".
Proof. unfold collection_name. discriminate. Qed.

Lemma get_existing_found (collation_eq : atom → atom → bool)
    (faults : store_op → bool) (s : snapshot) (self : ETL) (ex : doc) :
  get_existing collation_eq faults s self = Ok (Some ex) →
  ∃ i, find_first (existing_filter collation_eq s) (history self) = Some (i, ex).
Proof.
  unfold get_existing, history. destruct (database self) as [db|]; [|done].
  destruct (faults OpFind); [done|]. intros [= Hfind].
  destruct (find_first _ _) as [[i ex']|]; [|done].
  injection Hfind as <-. by exists i.
Qed.

(** What [load] does to the channel's history. *)
Lemma load_history (collation_eq : atom → atom → bool)
    (faults : store_op → bool) (s : snapshot) (r : ref)
    (updates : option doc) (self : ETL) :
  truthy (deref self r) = true →
  (∀ u, updates = Some u →
     ∃ i ex d, find_first (existing_filter collation_eq s) (history self)
                 = Some (i, ex) ∧
               transform_helper s (Some ex) = Ok d ∧
               u = filter (λ kv, kv.1 ∉ index_keys) d) →
  pss_channel (load collation_eq faults s r updates self).1 = pss_channel self ∧
  history_kept (history self)
               (history (load collation_eq faults s r updates self).1).
Proof.
  intros Ht Hupd.
  pose proof (collection_name_ne_last_played self) as Hname.
  destruct (database self) as [db|] eqn:Hdb.
  2:{ rewrite load_no_write by auto. split; [done|]. apply history_kept_refl. }
  destruct (database_write self) eqn:Hw.
  2:{ rewrite load_no_write by auto. split; [done|]. apply history_kept_refl. }
  assert (history self = collection db (collection_name self)) as Hhist
    by (unfold history; by rewrite Hdb).
  destruct (truthy_opt updates) eqn:Hu.
  - rewrite (load_update _ _ _ _ _ _ db) by done. cbv zeta.
    destruct updates as [u|]; [|done].
    destruct (Hupd u eq_refl) as (i & ex & d & Hfind & Hd & ->).
    rewrite Hhist in *.
    destruct (faults OpUpdateOne).
    { split; [done|]. unfold history. simpl. rewrite Hdb. apply history_kept_refl. }
    assert (history_kept (collection db (collection_name self))
              (update_one (existing_filter collation_eq s)
                 (filter (λ kv, kv.1 ∉ index_keys) d)
                 (collection db (collection_name self)))) as Hkept
      by (by eapply history_kept_update_one).
    destruct (faults OpReplaceOne); (split; [done|]); unfold history; simpl;
      rewrite ?(collection_set_collection_ne _ "last_played") by done;
      by rewrite collection_set_collection.
  - rewrite (load_insert _ _ _ _ _ _ db) by done. cbv zeta.
    rewrite Hhist.
    destruct (deref self r !! "_id");
      (destruct (faults OpInsertOne);
       [ split; [done|]; unfold history; simpl; rewrite Hdb;
         apply history_kept_refl |]);
      (destruct (insert_doc _ _) as [c|e] eqn:Hins;
       [ apply history_kept_insert_doc in Hins;
         destruct (faults OpReplaceOne); (split; [done|]); unfold history; simpl;
         rewrite ?(collection_set_collection_ne _ "last_played") by done;
         by rewrite collection_set_collection
       | split; [done|]; unfold history; simpl; rewrite Hdb;
         apply history_kept_refl ]).
Qed.

(** One cycle keeps the channel and the stored histories. *)
Lemma cycle_history (collation_eq : atom → atom → bool)
    (faults : store_op → bool) (s : snapshot) (self : ETL) :
  pss_channel (extract_transform_load collation_eq faults s self).1
    = pss_channel self ∧
  history_kept (history self)
    (history (extract_transform_load collation_eq faults s self).1).
Proof.
  unfold extract_transform_load. destruct (status s).
  2:{ split; [done | apply history_kept_refl]. }
  rewrite run_get_self, run_bind. unfold lift.
  destruct (transform collation_eq faults s self) as [[new_doc updates]|e] eqn:Htr.
  2:{ split; [done | apply history_kept_refl]. }
  destruct new_doc as [d|]; [|split; [done | apply history_kept_refl]].
  destruct (truthy d) eqn:Ht; [|split; [done | apply history_kept_refl]].
  rewrite run_modify, run_bind. unfold new_object.
  set (s1 := set_objects _ _).
  assert (deref s1 (length (objects (add_log (LogInfo (song_name s)) self))) = d)
    as Hderef.
  { unfold deref, s1. simpl. rewrite lookup_app_r by lia.
    by rewrite Nat.sub_diag. }
  destruct (load_history collation_eq faults s
              (length (objects (add_log (LogInfo (song_name s)) self)))
              updates s1) as [Hch Hkept].
  - by rewrite Hderef.
  - intros u ->.
    destruct (transform_updates_inv _ _ _ _ _ _ Htr) as (ex & d' & Hex & Hd' & ->).
    destruct (get_existing_found _ _ _ _ _ Hex) as [i Hi].
    by exists i, ex, d'.
  - split; [by rewrite Hch | exact Hkept].
Qed.

Lemma cycles_history (collation_eq : atom → atom → bool)
    (inputs : list ((store_op → bool) * snapshot)) :
  ∀ self, pss_channel (cycles collation_eq inputs self) = pss_channel self ∧
          history_kept (history self) (history (cycles collation_eq inputs self)).
Proof.
  induction inputs as [|[faults s] rest IH]; intros self; simpl.
  - split; [done | apply history_kept_refl].
  - destruct (cycle_history collation_eq faults s self) as [Hch Hkept].
    destruct (IH (extract_transform_load collation_eq faults s self).1)
      as [Hch' Hkept'].
    split; [by rewrite Hch', Hch|]. by eapply history_kept_trans.
Qed.

(** C3: through any number of cycles, whichever snapshots arrive and
    whichever store calls fail, every record of the channel's history
    stays where it is, and none of its fields other than [datetime],
    [channels] and [play_count] changes: its [album], [song], [artist]
    and [artwork] (and its [_id]) are the ones it was created with. *)
Theorem identity_fields_write_once (collation_eq : atom → atom → bool)
    (inputs : list ((store_op → bool) * snapshot)) (self : ETL)
    (i : nat) (ex : doc) :
  history self !! i = Some ex →
  ∃ ex', history (cycles collation_eq inputs self) !! i = Some ex' ∧
    (∀ key, key ∉ mutable_keys → ex' !! key = ex !! key) ∧
    ex' !! "album" = ex !! "album" ∧ ex' !! "song" = ex !! "song" ∧
    ex' !! "artist" = ex !! "artist" ∧ ex' !! "artwork" = ex !! "artwork" ∧
    ex' !! "_id" = ex !! "_id".
Proof.
  intros Hi.
  destruct (cycles_history collation_eq inputs self) as [_ Hkept].
  destruct (Hkept i ex Hi) as (ex' & Hi' & Hkeys).
  exists ex'. split; [done|]. split; [done|].
  repeat split; apply Hkeys; unfold mutable_keys; intros Hin;
    repeat (apply elem_of_cons in Hin as [[=] | Hin]);
    by apply elem_of_nil in Hin.
Qed.

Lemma identity_fields_write_once_witness :
  ∃ ex', history (cycles atom_eqb
                    [(no_faults, playing "A" "X" (AStr "t3"));
                     (no_faults, playing "B" "Y" (AStr "t4"))]
                    (fresh_etl (Some db_AX) true)) !! 0%nat = Some ex' ∧
    (∀ key, key ∉ mutable_keys → ex' !! key = record_AX !! key) ∧
    ex' !! "album" = record_AX !! "album" ∧ ex' !! "song" = record_AX !! "song" ∧
    ex' !! "artist" = record_AX !! "artist" ∧
    ex' !! "artwork" = record_AX !! "artwork" ∧
    ex' !! "_id" = record_AX !! "_id".
Proof.
  apply (identity_fields_write_once atom_eqb
           [(no_faults, playing "A" "X" (AStr "t3"));
            (no_faults, playing "B" "Y" (AStr "t4"))]
           (fresh_etl (Some db_AX) true) 0%nat record_AX).
  reflexivity.
Defined.

(** * Further properties of the cycle *)

(** ** The merge, field by field *)

(** One merge of a record of the schema, with every field it assigns. *)
Lemma transform_helper_step (s : snapshot) (existing : option doc)
    (l cs : list elem) (a : atom) (k : Z) :
  get_list "datetime" (start_doc existing) = List l →
  get_list "channels" (start_doc existing) = List cs →
  default (Elem (EAtom (AInt 0))) (start_doc existing !! "play_count") = Elem (EAtom a) →
  atom_num a = Some k →
  ∃ d, transform_helper s existing = Ok d ∧ well_formed d = true ∧
       d !! "album" = Some (name_doc (album_name s)) ∧
       d !! "song" = Some (name_doc (song_name s)) ∧
       d !! "artist" = Some (name_doc (artist_name s)) ∧
       d !! "datetime" = Some (List (add_new (EAtom (start s)) l)) ∧
       d !! "channels" = Some (List (add_new (channel_data s) cs)) ∧
       d !! "play_count" = Some (Elem (EAtom (AInt (k + 1)))) ∧
       d !! "artwork" = Some (List (image_list (creativeArts s))).
Proof.
  intros Hl Hcs Ha Hk.
  eexists. split; [by apply (transform_helper_eq _ _ l cs a k)|].
  assert (∀ (d0 : doc) dt ch pc aw al so ar,
            let d := <["artwork" := aw]> (<["play_count" := pc]>
                       (<["channels" := ch]> (<["datetime" := dt]>
                          (<["artist" := ar]> (<["song" := so]>
                             (<["album" := al]> d0)))))) in
            d !! "album" = Some al ∧ d !! "song" = Some so ∧
            d !! "artist" = Some ar ∧ d !! "datetime" = Some dt ∧
            d !! "channels" = Some ch ∧ d !! "play_count" = Some pc ∧
            d !! "artwork" = Some aw) as Hlook.
  { intros d0 dt ch pc aw al so ar d. unfold d.
    repeat split; by rewrite ?lookup_insert_ne by done; rewrite lookup_insert_eq. }
  destruct (Hlook (start_doc existing)
              (List (add_new (EAtom (start s)) l))
              (List (add_new (channel_data s) cs))
              (Elem (EAtom (AInt (k + 1))))
              (List (image_list (creativeArts s)))
              (name_doc (album_name s)) (name_doc (song_name s))
              (name_doc (artist_name s)))
    as (Hal & Hso & Har & Hdt & Hch & Hpc & Haw).
  split; [|done].
  unfold well_formed, get_list. by rewrite Hdt, Hch, Hpc.
Qed.

(** X1: the merged record always carries the snapshot's own album, song
    and artist names and the snapshot's images, whatever the existing
    record held under these keys. *)
Theorem merged_identity_from_snapshot (s : snapshot) (existing : option doc) :
  well_formed (start_doc existing) = true →
  ∃ d, transform_helper s existing = Ok d ∧
       d !! "album" = Some (name_doc (album_name s)) ∧
       d !! "song" = Some (name_doc (song_name s)) ∧
       d !! "artist" = Some (name_doc (artist_name s)) ∧
       d !! "artwork" = Some (List (image_list (creativeArts s))).
Proof.
  intros Hwf.
  destruct (well_formed_inv _ Hwf) as (l & cs & a & k & Hl & Hcs & Ha & Hk).
  destruct (transform_helper_step s existing l cs a k Hl Hcs Ha Hk)
    as (d & Hd & _ & Hal & Hso & Har & _ & _ & _ & Haw).
  by exists d.
Qed.

Lemma merged_identity_from_snapshot_witness :
  ∃ d, transform_helper (playing "B" "Y" (AStr "t3")) (Some record_AX) = Ok d ∧
       d !! "album" = Some (name_doc (album_name (playing "B" "Y" (AStr "t3")))) ∧
       d !! "song" = Some (name_doc (song_name (playing "B" "Y" (AStr "t3")))) ∧
       d !! "artist" = Some (name_doc (artist_name (playing "B" "Y" (AStr "t3")))) ∧
       d !! "artwork"
         = Some (List (image_list (creativeArts (playing "B" "Y" (AStr "t3"))))).
Proof.
  apply (merged_identity_from_snapshot (playing "B" "Y" (AStr "t3")) (Some record_AX)).
  reflexivity.
Defined.

(** The members of [image_list]. *)
Lemma elem_of_image_list (arts : list artwork) (e : elem) :
  e ∈ image_list arts ↔
  ∃ a, a ∈ arts ∧
       atom_eqb (art_type a) (AStr "IMAGE") = true ∧
       atom_eqb (art_encrypted a) (ABool false) = true ∧
       e = EDict (<["size" := art_size a]> {[ "url" := art_url a ]}).
Proof.
  unfold image_list. rewrite list_elem_of_fmap. split.
  - intros (a & -> & Ha). apply list_elem_of_filter in Ha as [Hok Ha].
    apply andb_true_iff in Hok as [Hty Henc]. by exists a.
  - intros (a & Ha & Hty & Henc & ->). exists a. split; [done|].
    apply list_elem_of_filter. split; [|done].
    by rewrite Hty, Henc.
Qed.

(** X2: the [artwork] of a merged record is a list that holds exactly the
    snapshot's arts of type IMAGE that are not encrypted, each reduced to
    its size and url: no other art gets in, none of these is left out, and
    nothing of the artwork the existing record had is kept. *)
Theorem artwork_only_plain_images (s : snapshot) (existing : option doc) :
  well_formed (start_doc existing) = true →
  ∃ d imgs, transform_helper s existing = Ok d ∧
    d !! "artwork" = Some (List imgs) ∧
    ∀ e, e ∈ imgs ↔
      ∃ a, a ∈ creativeArts s ∧
           atom_eqb (art_type a) (AStr "IMAGE") = true ∧
           atom_eqb (art_encrypted a) (ABool false) = true ∧
           e = EDict (<["size" := art_size a]> {[ "url" := art_url a ]}).
Proof.
  intros Hwf.
  destruct (well_formed_inv _ Hwf) as (l & cs & a & k & Hl & Hcs & Ha & Hk).
  destruct (transform_helper_step s existing l cs a k Hl Hcs Ha Hk)
    as (d & Hd & _ & _ & _ & _ & _ & _ & _ & Haw).
  exists d, (image_list (creativeArts s)).
  split; [done|]. split; [done|]. intros e. apply elem_of_image_list.
Qed.

Lemma artwork_only_plain_images_witness :
  ∃ d imgs,
    transform_helper (playing "A" "X" (AStr "t3")) (Some record_AX) = Ok d ∧
    d !! "artwork" = Some (List imgs) ∧
    ∀ e, e ∈ imgs ↔
      ∃ a, a ∈ creativeArts (playing "A" "X" (AStr "t3")) ∧
           atom_eqb (art_type a) (AStr "IMAGE") = true ∧
           atom_eqb (art_encrypted a) (ABool false) = true ∧
           e = EDict (<["size" := art_size a]> {[ "url" := art_url a ]}).
Proof.
  apply (artwork_only_plain_images (playing "A" "X" (AStr "t3")) (Some record_AX)).
  vm_compute. reflexivity.
Defined.

Lemma py_in_dict_not_list (x : gmap string atom) (v : value) :
  is_list v = false → py_in (EDict x) v = Raise TypeError.
Proof. destruct v as [[[| | |s|]|d]|l]; by try discriminate. Qed.

Lemma py_incr_not_number (v : value) :
  is_number v = false → py_incr v = Raise TypeError.
Proof.
  destruct v as [[a|d]|l]; simpl; try done.
  destruct (atom_num a) as [n|]; [|done].
  intros H. apply bool_decide_eq_false in H. destruct H. by eexists.
Qed.

Lemma start_doc_falsy (existing : option doc) :
  truthy_opt existing = false → start_doc existing = ∅.
Proof.
  destruct existing as [d|]; [|done]. simpl. unfold truthy.
  intros H. apply bool_decide_eq_false in H.
  destruct (decide (d = ∅)); [done | by destruct H].
Qed.

(** A record off the schema makes the merge raise. *)
Lemma transform_helper_TypeError (s : snapshot) (existing : option doc)
    (l : list elem) :
  get_list "datetime" (start_doc existing) = List l →
  well_formed (start_doc existing) = false →
  transform_helper s existing = Raise TypeError.
Proof.
  intros Hl Hwf. unfold well_formed in Hwf. rewrite Hl in Hwf. simpl in Hwf.
  unfold transform_helper.
  replace (match existing with
           | Some d => if truthy d then d else ∅
           | None => ∅
           end) with (start_doc existing)
    by (destruct existing as [d0|]; simpl; [by rewrite truthy_or_empty|done]).
  set (d3 := <["artist" := _]> _).
  assert (get_list "datetime" d3 = List l) as Hl3
    by (unfold d3; by rewrite !get_list_insert_ne).
  rewrite Hl3. simpl.
  rewrite result_if_ret, existsb_rev, (get_list_insert_add_new _ _ _ _ Hl3). simpl.
  set (d4 := <["datetime" := _]> _).
  assert (get_list "channels" d4 = get_list "channels" (start_doc existing))
    as Hcs4 by (unfold d4, d3; by rewrite !get_list_insert_ne).
  destruct (get_list "channels" (start_doc existing)) as [e|cs] eqn:Hcs.
  - rewrite Hcs4. unfold channel_data. by rewrite py_in_dict_not_list.
  - rewrite Hcs4. simpl. rewrite result_if_ret.
    rewrite (get_list_insert_add_new _ _ _ _ Hcs4). simpl.
    unfold d4, d3. rewrite !lookup_insert_ne by done.
    by rewrite py_incr_not_number.
Qed.

(** X3: a stored record whose [channels] is not a list or whose
    [play_count] is not a number (its [datetime] being a list) stops its
    song from being processed: the merge raises a TypeError at the
    membership test or at the increment, before it comes to the snapshot's
    artwork, and a cycle that finds this record for the song playing
    raises the TypeError and leaves the object and the store exactly as
    they were, the cache included. *)
Theorem malformed_record_fails_cycle (collation_eq : atom → atom → bool)
    (faults : store_op → bool) (s : snapshot) (self : ETL)
    (started : elem) (existing : option doc) (l : list elem) :
  get_list "datetime" (start_doc existing) = List l →
  well_formed (start_doc existing) = false →
  status s = true →
  last_played_start self = Ok started →
  py_eq started (EAtom (start s)) = false →
  get_existing collation_eq faults s self = Ok existing →
  transform_helper s existing = Raise TypeError ∧
  extract_transform_load collation_eq faults s self = (self, Raise TypeError).
Proof.
  intros Hl Hwf Hst Hs Hne Hex.
  pose proof (transform_helper_TypeError s existing l Hl Hwf) as Hraise.
  split; [done|].
  assert (truthy_opt existing = true) as Ht.
  { destruct (truthy_opt existing) eqn:Ht; [done|].
    rewrite (start_doc_falsy _ Ht) in Hwf. by vm_compute in Hwf. }
  unfold extract_transform_load. rewrite Hst, run_get_self, run_bind.
  unfold lift, transform. rewrite Hs. simpl. rewrite Hne. simpl.
  rewrite Hex. simpl. by rewrite Ht, Hraise.
Qed.

Lemma malformed_record_fails_cycle_witness :
  transform_helper (playing "A" "X" (AStr "t3")) (Some record_text_count)
    = Raise TypeError ∧
  extract_transform_load atom_eqb no_faults (playing "A" "X" (AStr "t3"))
    (fresh_etl (Some db_text_count) true)
    = (fresh_etl (Some db_text_count) true, Raise TypeError).
Proof.
  apply (malformed_record_fails_cycle atom_eqb no_faults
           (playing "A" "X" (AStr "t3")) (fresh_etl (Some db_text_count) true)
           (EAtom ANone) (Some record_text_count)
           [EAtom (AStr "t1"); EAtom (AStr "t2")]);
    vm_compute; reflexivity.
Defined.

(** ** Merging a run of snapshots *)

(** The timestamps (or channels) a run of merges leaves. *)
Lemma foldl_add_new_prefix {A} (f : A → elem) (xs : list A) :
  ∀ l, l `prefix_of` foldl (λ acc x, add_new (f x) acc) l xs.
Proof.
  induction xs as [|x xs IH]; intros l; simpl; [done|].
  etrans; [|apply IH]. unfold add_new.
  destruct (existsb _ l); [done|]. by apply prefix_app_r.
Qed.

Lemma existsb_prefix (x : elem) (l l' : list elem) :
  l `prefix_of` l' → existsb (py_eq x) l = true → existsb (py_eq x) l' = true.
Proof.
  intros [k ->] H. rewrite existsb_app, H. done.
Qed.

Lemma foldl_add_new_elem {A} (f : A → elem) (xs : list A) :
  ∀ l x, x ∈ xs →
    existsb (py_eq (f x)) (foldl (λ acc x, add_new (f x) acc) l xs) = true.
Proof.
  induction xs as [|y xs IH]; intros l x Hx; [by apply elem_of_nil in Hx|].
  simpl. apply elem_of_cons in Hx as [-> | Hx]; [|by apply IH].
  eapply existsb_prefix; [apply foldl_add_new_prefix|].
  apply add_new_elem_of.
Qed.

Lemma foldl_add_new_length {A} (f : A → elem) (xs : list A) :
  ∀ l, (length (foldl (λ acc x, add_new (f x) acc) l xs)
        ≤ length l + length xs)%nat.
Proof.
  induction xs as [|x xs IH]; intros l; simpl; [lia|].
  etrans; [apply IH|]. unfold add_new.
  destruct (existsb _ l); [lia|]. rewrite length_app. simpl. lia.
Qed.

Lemma merge_all_eq (snapshots : list snapshot) :
  ∀ (existing : doc) (l cs : list elem) (a : atom) (k : Z),
    get_list "datetime" existing = List l →
    get_list "channels" existing = List cs →
    default (Elem (EAtom (AInt 0))) (existing !! "play_count") = Elem (EAtom a) →
    atom_num a = Some k →
    ∃ d a', merge_all snapshots existing = Ok d ∧
      get_list "datetime" d
        = List (foldl (λ acc s, add_new (EAtom (start s)) acc) l snapshots) ∧
      get_list "channels" d
        = List (foldl (λ acc s, add_new (channel_data s) acc) cs snapshots) ∧
      default (Elem (EAtom (AInt 0))) (d !! "play_count") = Elem (EAtom a') ∧
      atom_num a' = Some (k + Z.of_nat (length snapshots)).
Proof.
  induction snapshots as [|s rest IH]; intros existing l cs a k Hl Hcs Ha Hk.
  - exists existing, a. simpl. rewrite Z.add_0_r. done.
  - destruct (transform_helper_step s (Some existing) l cs a k Hl Hcs Ha Hk)
      as (d1 & Hd1 & _ & _ & _ & _ & Hdt & Hch & Hpc & _).
    destruct (IH d1 (add_new (EAtom (start s)) l) (add_new (channel_data s) cs)
                (AInt (k + 1)) (k + 1)) as (d & a' & Hd & Hdt' & Hch' & Ha' & Hk').
    + unfold get_list. by rewrite Hdt.
    + unfold get_list. by rewrite Hch.
    + by rewrite Hpc.
    + done.
    + exists d, a'. simpl. rewrite Hd1. simpl. split; [done|].
      split; [done|]. split; [done|]. split; [done|].
      rewrite Hk'. f_equal. lia.
Qed.

(** X4: [play_count] counts merges: merging any run of snapshots into a
    record of the schema with count [k] (0 when missing) leaves the count
    at [k] plus the number of snapshots, whether or not their timestamps
    or channels were new. *)
Theorem play_count_counts_merges (snapshots : list snapshot) (existing : doc)
    (a : atom) (k : Z) :
  well_formed existing = true →
  default (Elem (EAtom (AInt 0))) (existing !! "play_count") = Elem (EAtom a) →
  atom_num a = Some k →
  ∃ d a', merge_all snapshots existing = Ok d ∧
    default (Elem (EAtom (AInt 0))) (d !! "play_count") = Elem (EAtom a') ∧
    atom_num a' = Some (k + Z.of_nat (length snapshots)).
Proof.
  intros Hwf Ha Hk.
  destruct (well_formed_inv _ Hwf) as (l & cs & _ & _ & Hl & Hcs & _ & _).
  destruct (merge_all_eq snapshots existing l cs a k Hl Hcs Ha Hk)
    as (d & a' & Hd & _ & _ & Ha' & Hk').
  by exists d, a'.
Qed.

Lemma play_count_counts_merges_witness :
  ∃ d a',
    merge_all [playing "A" "X" (AStr "t2"); playing "A" "X" (AStr "t3")] record_AX
      = Ok d ∧
    default (Elem (EAtom (AInt 0))) (d !! "play_count") = Elem (EAtom a') ∧
    atom_num a' = Some (2 + Z.of_nat
                              (length [playing "A" "X" (AStr "t2");
                                       playing "A" "X" (AStr "t3")])).
Proof.
  apply (play_count_counts_merges
           [playing "A" "X" (AStr "t2"); playing "A" "X" (AStr "t3")]
           record_AX (AInt 2) 2); reflexivity.
Defined.

(** X5: [datetime] is append-only: after any run of merges the record's
    old timestamps are still there, in order, at the front; every merged
    snapshot's start is in the list; and the list has grown by at most one
    entry per merge. *)
Theorem datetime_append_only (snapshots : list snapshot) (existing : doc)
    (l : list elem) :
  well_formed existing = true →
  get_list "datetime" existing = List l →
  ∃ d l', merge_all snapshots existing = Ok d ∧
    get_list "datetime" d = List l' ∧
    l `prefix_of` l' ∧
    (∀ s, s ∈ snapshots → existsb (py_eq (EAtom (start s))) l' = true) ∧
    (length l' ≤ length l + length snapshots)%nat.
Proof.
  intros Hwf Hl.
  destruct (well_formed_inv _ Hwf) as (l0 & cs & a & k & Hl0 & Hcs & Ha & Hk).
  rewrite Hl in Hl0. injection Hl0 as <-.
  destruct (merge_all_eq snapshots existing l cs a k Hl Hcs Ha Hk)
    as (d & a' & Hd & Hdt & _).
  eexists d, _. split; [done|]. split; [done|].
  split; [apply foldl_add_new_prefix|].
  split; [|apply foldl_add_new_length].
  intros s Hs. by apply (foldl_add_new_elem (λ s, EAtom (start s))).
Qed.

Lemma datetime_append_only_witness :
  ∃ d l',
    merge_all [playing "A" "X" (AStr "t2"); playing "A" "X" (AStr "t3")] record_AX
      = Ok d ∧
    get_list "datetime" d = List l' ∧
    [EAtom (AStr "t1"); EAtom (AStr "t2")] `prefix_of` l' ∧
    (∀ s, s ∈ [playing "A" "X" (AStr "t2"); playing "A" "X" (AStr "t3")] →
          existsb (py_eq (EAtom (start s))) l' = true) ∧
    (length l' ≤ length [EAtom (AStr "t1"); EAtom (AStr "t2")]
                 + length [playing "A" "X" (AStr "t2"); playing "A" "X" (AStr "t3")])%nat.
Proof.
  apply (datetime_append_only
           [playing "A" "X" (AStr "t2"); playing "A" "X" (AStr "t3")]
           record_AX [EAtom (AStr "t1"); EAtom (AStr "t2")]); reflexivity.
Defined.

(** X6: [channels] is append-only across snapshots of any channels: the
    old triples stay at the front in order, every merged snapshot's triple
    is in the list, and the list grows by at most one entry per merge. *)
Theorem channels_append_only (snapshots : list snapshot) (existing : doc)
    (cs : list elem) :
  well_formed existing = true →
  get_list "channels" existing = List cs →
  ∃ d cs', merge_all snapshots existing = Ok d ∧
    get_list "channels" d = List cs' ∧
    cs `prefix_of` cs' ∧
    (∀ s, s ∈ snapshots → existsb (py_eq (channel_data s)) cs' = true) ∧
    (length cs' ≤ length cs + length snapshots)%nat.
Proof.
  intros Hwf Hcs.
  destruct (well_formed_inv _ Hwf) as (l & cs0 & a & k & Hl & Hcs0 & Ha & Hk).
  rewrite Hcs in Hcs0. injection Hcs0 as <-.
  destruct (merge_all_eq snapshots existing l cs a k Hl Hcs Ha Hk)
    as (d & a' & Hd & _ & Hch & _).
  eexists d, _. split; [done|]. split; [done|].
  split; [apply foldl_add_new_prefix|].
  split; [|apply foldl_add_new_length].
  intros s Hs. by apply (foldl_add_new_elem channel_data).
Qed.

Lemma channels_append_only_witness :
  ∃ d cs',
    merge_all [playing "A" "X" (AStr "t2"); playing "A" "X" (AStr "t3")] record_AX
      = Ok d ∧
    get_list "channels" d = List cs' ∧
    [channel_data (playing "A" "X" ANone)] `prefix_of` cs' ∧
    (∀ s, s ∈ [playing "A" "X" (AStr "t2"); playing "A" "X" (AStr "t3")] →
          existsb (py_eq (channel_data s)) cs' = true) ∧
    (length cs' ≤ length [channel_data (playing "A" "X" ANone)]
                  + length [playing "A" "X" (AStr "t2"); playing "A" "X" (AStr "t3")])%nat.
Proof.
  apply (channels_append_only
           [playing "A" "X" (AStr "t2"); playing "A" "X" (AStr "t3")]
           record_AX [channel_data (playing "A" "X" ANone)]); reflexivity.
Defined.

(** ** Reading the pointer cache and the history *)

(** X7: [last_played_start] is [None] without a pointer (no cache, or an
    empty dict); with a pointer it is the last entry of its [datetime],
    and it raises KeyError when the pointer has no [datetime] and
    IndexError when that list is empty. *)
Theorem last_played_start_cases (self : ETL) :
  (truthy_opt (deref self <$> last_played self) = false →
     last_played_start self = Ok (EAtom ANone)) ∧
  (∀ r d, last_played self = Some r → objects self !! r = Some d →
     truthy d = true →
     (d !! "datetime" = None → last_played_start self = Raise KeyError) ∧
     (d !! "datetime" = Some (List []) →
        last_played_start self = Raise IndexError) ∧
     (∀ l x, d !! "datetime" = Some (List (l ++ [x])) →
        last_played_start self = Ok x)).
Proof.
  split.
  - unfold last_played_start. destruct (last_played self) as [r|]; [|done].
    simpl. by intros ->.
  - intros r d Hlp Hobj Ht. unfold last_played_start, deref.
    rewrite Hlp, Hobj. simpl. rewrite Ht. repeat split.
    + by intros ->.
    + by intros ->.
    + intros l x ->. simpl. by rewrite last_snoc.
Qed.

Lemma last_played_start_cases_witness :
  (truthy_opt (deref (fresh_etl None true) <$> last_played (fresh_etl None true))
     = false →
     last_played_start (fresh_etl None true) = Ok (EAtom ANone)) ∧
  (∀ r d, last_played (fresh_etl None true) = Some r →
     objects (fresh_etl None true) !! r = Some d →
     truthy d = true →
     (d !! "datetime" = None →
        last_played_start (fresh_etl None true) = Raise KeyError) ∧
     (d !! "datetime" = Some (List []) →
        last_played_start (fresh_etl None true) = Raise IndexError) ∧
     (∀ l x, d !! "datetime" = Some (List (l ++ [x])) →
        last_played_start (fresh_etl None true) = Ok x)).
Proof. exact (last_played_start_cases (fresh_etl None true)). Defined.

(** X8: [get_existing] returns [None] without a database, raises when
    the store's find fails, and otherwise returns the first document of
    the channel's history, in insertion order, that passes the artist and
    song filter: [None] exactly when no document passes. *)
Theorem get_existing_first_match (collation_eq : atom → atom → bool)
    (faults : store_op → bool) (s : snapshot) (self : ETL) :
  (database self = None → get_existing collation_eq faults s self = Ok None) ∧
  (is_Some (database self) → faults OpFind = true →
     get_existing collation_eq faults s self = Raise StoreError) ∧
  (is_Some (database self) → faults OpFind = false →
     (get_existing collation_eq faults s self = Ok None
      ↔ ∀ d, d ∈ history self → existing_filter collation_eq s d = false) ∧
     (∀ ex, get_existing collation_eq faults s self = Ok (Some ex)
      ↔ ∃ i, history self !! i = Some ex ∧
             existing_filter collation_eq s ex = true ∧
             ∀ j y, history self !! j = Some y → (j < i)%nat →
                    existing_filter collation_eq s y = false)).
Proof.
  unfold get_existing, history. split; [by intros ->|]. split.
  - intros [db ->] ->. done.
  - intros [db ->] ->. unfold find_first. split.
    + split.
      * intros [= Hnone]. apply fmap_None, list_find_None in Hnone.
        rewrite Forall_forall in Hnone. intros d Hd.
        apply not_true_is_false. by apply Hnone.
      * intros Hall. f_equal. apply fmap_None, list_find_None, Forall_forall.
        intros d Hd. rewrite (Hall d Hd). done.
    + intros ex. split.
      * intros [= Hsome]. apply fmap_Some in Hsome as ([i ex'] & Hfind & ->).
        apply list_find_Some in Hfind as (Hi & Hex & Hleast).
        exists i. split; [done|]. split; [done|].
        intros j y Hj Hlt. apply not_true_is_false. by eapply Hleast.
      * intros (i & Hi & Hex & Hleast). f_equal. apply fmap_Some.
        exists (i, ex). split; [|done]. apply list_find_Some.
        split; [done|]. split; [done|].
        intros j y Hj Hlt. rewrite (Hleast j y Hj Hlt). done.
Qed.

Lemma get_existing_first_match_witness :
  (database (fresh_etl (Some db_AX) true) = None →
     get_existing atom_eqb no_faults (playing "A" "X" (AStr "t3"))
       (fresh_etl (Some db_AX) true) = Ok None) ∧
  (is_Some (database (fresh_etl (Some db_AX) true)) → no_faults OpFind = true →
     get_existing atom_eqb no_faults (playing "A" "X" (AStr "t3"))
       (fresh_etl (Some db_AX) true) = Raise StoreError) ∧
  (is_Some (database (fresh_etl (Some db_AX) true)) → no_faults OpFind = false →
     (get_existing atom_eqb no_faults (playing "A" "X" (AStr "t3"))
        (fresh_etl (Some db_AX) true) = Ok None
      ↔ ∀ d, d ∈ history (fresh_etl (Some db_AX) true) →
             existing_filter atom_eqb (playing "A" "X" (AStr "t3")) d = false) ∧
     (∀ ex, get_existing atom_eqb no_faults (playing "A" "X" (AStr "t3"))
              (fresh_etl (Some db_AX) true) = Ok (Some ex)
      ↔ ∃ i, history (fresh_etl (Some db_AX) true) !! i = Some ex ∧
             existing_filter atom_eqb (playing "A" "X" (AStr "t3")) ex = true ∧
             ∀ j y, history (fresh_etl (Some db_AX) true) !! j = Some y →
                    (j < i)%nat →
                    existing_filter atom_eqb (playing "A" "X" (AStr "t3")) y = false)).
Proof.
  exact (get_existing_first_match atom_eqb no_faults (playing "A" "X" (AStr "t3"))
           (fresh_etl (Some db_AX) true)).
Defined.

(** ** What a cycle writes *)

(** The writes of [load]: none, or one to the channel's history, or that
    and one replacement in the pointer collection, of a document whose
    [_id] is the channel; the attributes set by [__init__] stay. *)
Lemma load_writes (collation_eq : atom → atom → bool)
    (faults : store_op → bool) (s : snapshot) (r : ref)
    (updates : option doc) (self : ETL) :
  truthy (deref self r) = true →
  pss_channel (load collation_eq faults s r updates self).1 = pss_channel self ∧
  database_write (load collation_eq faults s r updates self).1
    = database_write self ∧
  (database (load collation_eq faults s r updates self).1 = database self ∨
   ∃ db c, database self = Some db ∧ database_write self = true ∧
     (database (load collation_eq faults s r updates self).1
        = Some (set_collection db (collection_name self) c) ∨
      ∃ d, id_filter (channel (pss_channel self)) d = true ∧
        database (load collation_eq faults s r updates self).1
          = Some (set_collection (set_collection db (collection_name self) c)
                    "last_played"
                    (replace_one (id_filter (channel (pss_channel self))) d
                                 (collection db "last_played"))))).
Proof.
  intros Ht.
  pose proof (collection_name_ne_last_played self) as Hname.
  destruct (database self) as [db|] eqn:Hdb.
  2:{ rewrite load_no_write by auto. simpl. by rewrite Hdb; auto. }
  destruct (database_write self) eqn:Hw.
  2:{ rewrite load_no_write by auto. simpl. rewrite Hdb, Hw. auto. }
  destruct (truthy_opt updates) eqn:Hu.
  - rewrite (load_update _ _ _ _ _ _ db) by done. cbv zeta.
    destruct (faults OpUpdateOne); [simpl; rewrite Hdb, Hw; auto|].
    destruct (faults OpReplaceOne); simpl; rewrite Hw;
      (split; [done|]); (split; [done|]); right; eexists db, _;
      (split; [done|]); (split; [done|]); [by left|].
    right. eexists. split; [apply id_filter_with_id|].
    by rewrite (collection_set_collection_ne _ (collection_name self)).
  - rewrite (load_insert _ _ _ _ _ _ db) by done. cbv zeta.
    destruct (deref self r !! "_id");
      (destruct (faults OpInsertOne); [simpl; rewrite Hdb, Hw; auto|]);
      (destruct (insert_doc _ _) as [c|e]; [|simpl; rewrite Hdb, Hw; auto]);
      (destruct (faults OpReplaceOne); simpl; rewrite Hw;
       (split; [done|]); (split; [done|]); right; eexists db, _;
       (split; [done|]); (split; [done|]); [by left|]);
      right; (eexists; split; [apply id_filter_with_id|]);
      by rewrite (collection_set_collection_ne _ (collection_name self)).
Qed.

(** The same for a whole cycle. *)
Lemma cycle_writes (collation_eq : atom → atom → bool)
    (faults : store_op → bool) (s : snapshot) (self : ETL) :
  pss_channel (extract_transform_load collation_eq faults s self).1
    = pss_channel self ∧
  database_write (extract_transform_load collation_eq faults s self).1
    = database_write self ∧
  (database (extract_transform_load collation_eq faults s self).1 = database self ∨
   ∃ db c, database self = Some db ∧ database_write self = true ∧
     (database (extract_transform_load collation_eq faults s self).1
        = Some (set_collection db (collection_name self) c) ∨
      ∃ d, id_filter (channel (pss_channel self)) d = true ∧
        database (extract_transform_load collation_eq faults s self).1
          = Some (set_collection (set_collection db (collection_name self) c)
                    "last_played"
                    (replace_one (id_filter (channel (pss_channel self))) d
                                 (collection db "last_played"))))).
Proof.
  unfold extract_transform_load. destruct (status s); [|simpl; auto].
  rewrite run_get_self, run_bind. unfold lift.
  destruct (transform collation_eq faults s self) as [[new_doc updates]|e];
    [|simpl; auto].
  destruct new_doc as [d|]; [|simpl; auto].
  destruct (truthy d) eqn:Ht; [|simpl; auto].
  rewrite run_modify, run_bind. unfold new_object.
  set (s1 := set_objects _ _).
  apply (load_writes collation_eq faults s
           (length (objects (add_log (LogInfo (song_name s)) self))) updates s1).
  unfold deref, s1. simpl. rewrite lookup_app_r by lia.
  by rewrite Nat.sub_diag.
Qed.

(** X9: with [database_write] off (or without a database) no cycle ever
    changes the database, whatever is played. *)
Theorem no_write_no_store_change (collation_eq : atom → atom → bool)
    (inputs : list ((store_op → bool) * snapshot)) (self : ETL) :
  database self = None ∨ database_write self = false →
  database (cycles collation_eq inputs self) = database self ∧
  database_write (cycles collation_eq inputs self) = database_write self.
Proof.
  revert self. induction inputs as [|[faults s] rest IH]; intros self Hoff;
    simpl; [done|].
  destruct (cycle_writes collation_eq faults s self) as (_ & Hw & Hdb).
  assert (database (extract_transform_load collation_eq faults s self).1
          = database self) as Hsame.
  { destruct Hdb as [?|(db & c & Hdb & Hw' & _)]; [done|].
    destruct Hoff as [Hoff|Hoff]; congruence. }
  destruct (IH (extract_transform_load collation_eq faults s self).1) as [H1 H2].
  { rewrite Hsame, Hw. done. }
  by rewrite H1, H2, Hsame, Hw.
Qed.

Lemma no_write_no_store_change_witness :
  database (cycles atom_eqb
              [(no_faults, playing "A" "X" (AStr "t3"));
               (no_faults, playing "B" "Y" (AStr "t4"))]
              (fresh_etl (Some db_AX) false))
    = database (fresh_etl (Some db_AX) false) ∧
  database_write (cycles atom_eqb
                    [(no_faults, playing "A" "X" (AStr "t3"));
                     (no_faults, playing "B" "Y" (AStr "t4"))]
                    (fresh_etl (Some db_AX) false))
    = database_write (fresh_etl (Some db_AX) false).
Proof.
  apply (no_write_no_store_change atom_eqb
           [(no_faults, playing "A" "X" (AStr "t3"));
            (no_faults, playing "B" "Y" (AStr "t4"))]
           (fresh_etl (Some db_AX) false)).
  right. reflexivity.
Defined.

(** X10: a channel's cycles write to its own history collection and to
    the pointer collection only: every other collection of the database
    (another channel's history, say) is left as it is. *)
Theorem other_collections_untouched (collation_eq : atom → atom → bool)
    (inputs : list ((store_op → bool) * snapshot)) (self : ETL)
    (db : Database) (name : string) :
  database self = Some db →
  name ≠ collection_name self → name ≠ "last_played" →
  ∃ db', database (cycles collation_eq inputs self) = Some db' ∧
         collections db' !! name = collections db !! name.
Proof.
  revert self db. induction inputs as [|[faults s] rest IH];
    intros self db Hdb Hn1 Hn2; simpl; [by exists db|].
  destruct (cycle_writes collation_eq faults s self) as (Hch & _ & Hcases).
  assert (∃ db1, database (extract_transform_load collation_eq faults s self).1
                   = Some db1 ∧ collections db1 !! name = collections db !! name)
    as (db1 & Hdb1 & Hsame).
  { destruct Hcases as [Heq|(db0 & c & Hdb0 & _ & [Heq|(d & _ & Heq)])].
    - exists db. by rewrite Heq.
    - rewrite Hdb in Hdb0. injection Hdb0 as <-.
      eexists. split; [done|]. simpl. by rewrite lookup_insert_ne.
    - rewrite Hdb in Hdb0. injection Hdb0 as <-.
      eexists. split; [done|]. simpl. by rewrite !lookup_insert_ne. }
  destruct (IH _ db1 Hdb1) as (db' & Hdb' & Hsame'); [|done|].
  - unfold collection_name in *. by rewrite Hch.
  - exists db'. split; [done|]. by rewrite Hsame'.
Qed.

Lemma other_collections_untouched_witness :
  ∃ db', database (cycles atom_eqb
                     [(no_faults, playing "A" "X" (AStr "t3"));
                      (no_faults, playing "B" "Y" (AStr "t4"))]
                     (fresh_etl (Some db_AX) true)) = Some db' ∧
         collections db' !! "channel_7" = collections db_AX !! "channel_7".
Proof.
  apply (other_collections_untouched atom_eqb
           [(no_faults, playing "A" "X" (AStr "t3"));
            (no_faults, playing "B" "Y" (AStr "t4"))]
           (fresh_etl (Some db_AX) true) db_AX "channel_7").
  - reflexivity.
  - vm_compute. discriminate.
  - discriminate.
Defined.

(** Replacing a document that a filter rejects by another one it rejects
    does not change what the filter finds. *)
Lemma list_find_insert_rejected {A} (P : A → Prop) `{∀ x, Decision (P x)}
    (l : list A) :
  ∀ i x y, l !! i = Some x → ¬ P x → ¬ P y →
    snd <$> list_find P (<[i := y]> l) = snd <$> list_find P l.
Proof.
  induction l as [|z l IH]; intros i x y Hi Hx Hy; [done|].
  destruct i as [|i]; simpl in *.
  - injection Hi as ->. rewrite !decide_False by done.
    by rewrite <- !option_fmap_compose.
  - destruct (decide (P z)); [done|].
    rewrite <- !option_fmap_compose.
    specialize (IH i x y Hi Hx Hy).
    destruct (list_find P (<[i:=y]> l)) as [[j1 y1]|],
             (list_find P l) as [[j2 y2]|]; simpl in *; congruence.
Qed.

Lemma find_first_replace_one_other (f g : doc → bool) (d : doc) (c : list doc) :
  g d = false → (∀ x, f x = true → g x = false) →
  snd <$> find_first g (replace_one f d c) = snd <$> find_first g c.
Proof.
  intros Hd Hfg. unfold replace_one, find_first.
  destruct (list_find (λ d', f d' = true) c) as [[i x]|] eqn:Hfind.
  - apply list_find_Some in Hfind as (Hi & Hx & _).
    apply (list_find_insert_rejected _ _ _ x); [done| |].
    + rewrite (Hfg x Hx). done.
    + rewrite Hd. done.
  - destruct (list_find (λ d', g d' = true) c) as [[j y]|] eqn:Hg.
    + by rewrite (list_find_app_l _ _ _ _ _ Hg).
    + rewrite list_find_app_r by done. simpl.
      rewrite decide_False; [done|]. rewrite Hd. done.
Qed.

Lemma id_filter_other (c c' : atom) (d : doc) :
  c ≠ c' → id_filter c d = true → id_filter c' d = false.
Proof.
  unfold id_filter. intros Hne Hc. apply bool_decide_eq_true in Hc.
  apply bool_decide_eq_false. rewrite Hc. congruence.
Qed.

(** X11: the pointer collection is shared by all channels, and a
    channel's cycles only ever replace its own document there: the pointer
    document of any other channel id is the same before and after. *)
Theorem other_pointers_untouched (collation_eq : atom → atom → bool)
    (inputs : list ((store_op → bool) * snapshot)) (self : ETL)
    (db : Database) (other : atom) :
  database self = Some db →
  other ≠ channel (pss_channel self) →
  ∃ db', database (cycles collation_eq inputs self) = Some db' ∧
         snd <$> find_first (id_filter other) (collection db' "last_played")
         = snd <$> find_first (id_filter other) (collection db "last_played").
Proof.
  revert self db. induction inputs as [|[faults s] rest IH];
    intros self db Hdb Hne; simpl; [by exists db|].
  pose proof (collection_name_ne_last_played self) as Hname.
  destruct (cycle_writes collation_eq faults s self) as (Hch & _ & Hcases).
  assert (∃ db1, database (extract_transform_load collation_eq faults s self).1
                   = Some db1 ∧
                 snd <$> find_first (id_filter other) (collection db1 "last_played")
                 = snd <$> find_first (id_filter other) (collection db "last_played"))
    as (db1 & Hdb1 & Hsame).
  { destruct Hcases as [Heq|(db0 & c & Hdb0 & _ & [Heq|(d & Hd & Heq)])].
    - exists db. by rewrite Heq.
    - rewrite Hdb in Hdb0. injection Hdb0 as <-.
      eexists. split; [done|].
      by rewrite (collection_set_collection_ne _ (collection_name self)).
    - rewrite Hdb in Hdb0. injection Hdb0 as <-.
      eexists. split; [done|]. rewrite collection_set_collection.
      apply find_first_replace_one_other.
      + by eapply id_filter_other.
      + intros x Hx. by eapply id_filter_other. }
  destruct (IH _ db1 Hdb1) as (db' & Hdb' & Hsame').
  - by rewrite Hch.
  - exists db'. split; [done|]. by rewrite Hsame'.
Qed.

Lemma other_pointers_untouched_witness :
  ∃ db', database (cycles atom_eqb
                     [(no_faults, playing "A" "X" (AStr "t3"));
                      (no_faults, playing "B" "Y" (AStr "t4"))]
                     (fresh_etl (Some db_AX) true)) = Some db' ∧
         snd <$> find_first (id_filter (AInt 7)) (collection db' "last_played")
         = snd <$> find_first (id_filter (AInt 7)) (collection db_AX "last_played").
Proof.
  apply (other_pointers_untouched atom_eqb
           [(no_faults, playing "A" "X" (AStr "t3"));
            (no_faults, playing "B" "Y" (AStr "t4"))]
           (fresh_etl (Some db_AX) true) db_AX (AInt 7)).
  - reflexivity.
  - discriminate.
Defined.

(** X12: the two writes of [load] are not undone: when the pointer
    replacement fails, [load] raises, the pointer collection is as it was,
    the cache refers to the merged record, and an update of the history
    that went through before stays written. *)
Theorem pointer_failure_keeps_history (collation_eq : atom → atom → bool)
    (faults : store_op → bool) (s : snapshot) (new_doc : ref)
    (doc_updates : option doc) (self : ETL) (db : Database) :
  truthy (deref self new_doc) = true →
  database self = Some db → database_write self = true →
  faults OpReplaceOne = true →
  ∃ self' e db',
    load collation_eq faults s new_doc doc_updates self = (self', Raise e) ∧
    last_played self' = Some new_doc ∧
    database self' = Some db' ∧
    collection db' "last_played" = collection db "last_played" ∧
    (truthy_opt doc_updates = true → faults OpUpdateOne = false →
       e = StoreError ∧
       history self' = update_one (existing_filter collation_eq s)
                         (default ∅ doc_updates) (history self)).
Proof.
  intros Ht Hdb Hw Hfr.
  pose proof (collection_name_ne_last_played self) as Hname.
  assert (history self = collection db (collection_name self)) as Hhist
    by (unfold history; by rewrite Hdb).
  destruct (truthy_opt doc_updates) eqn:Hu.
  - rewrite (load_update _ _ _ _ _ _ db) by done. cbv zeta. rewrite Hfr.
    destruct (faults OpUpdateOne).
    + eexists _, _, db. split; [done|]. simpl. by rewrite Hdb.
    + eexists _, _, _. split; [done|]. split; [done|]. split; [done|].
      split; [by rewrite (collection_set_collection_ne _ (collection_name self))|].
      intros _ _. split; [done|]. rewrite Hhist. unfold history. simpl.
      by rewrite collection_set_collection.
  - rewrite (load_insert _ _ _ _ _ _ db) by done. cbv zeta. rewrite Hfr.
    destruct (deref self new_doc !! "_id");
      (destruct (faults OpInsertOne);
       [eexists _, _, db; split; [done|]; simpl; by rewrite Hdb|]);
      (destruct (insert_doc _ _) as [c|e];
       [|eexists _, _, db; split; [done|]; simpl; by rewrite Hdb]);
      eexists _, _, _; (split; [done|]); (split; [done|]); (split; [done|]);
      (split; [by rewrite (collection_set_collection_ne _ (collection_name self))
              |done]).
Qed.

Lemma pointer_failure_keeps_history_witness :
  ∃ self' e db',
    load atom_eqb pointer_write_fails
      (playing "A" "X" (AStr "t3")) 0%nat (Some updates_AX)
      (holding record_AX (fresh_etl (Some db_AX) true)) = (self', Raise e) ∧
    last_played self' = Some 0%nat ∧
    database self' = Some db' ∧
    collection db' "last_played" = collection db_AX "last_played" ∧
    (truthy_opt (Some updates_AX) = true →
     pointer_write_fails OpUpdateOne = false →
       e = StoreError ∧
       history self'
       = update_one (existing_filter atom_eqb (playing "A" "X" (AStr "t3")))
           (default ∅ (Some updates_AX))
           (history (holding record_AX (fresh_etl (Some db_AX) true)))).
Proof.
  apply (pointer_failure_keeps_history atom_eqb
           pointer_write_fails
           (playing "A" "X" (AStr "t3")) 0%nat (Some updates_AX)
           (holding record_AX (fresh_etl (Some db_AX) true)) db_AX);
    reflexivity.
Defined.

(** ** Cycles one after the other *)

(** [load] leaves the cache on the object it was given, with its fields
    (up to [_id]). *)
Lemma load_object (collation_eq : atom → atom → bool)
    (faults : store_op → bool) (s : snapshot) (r : ref)
    (updates : option doc) (self : ETL) :
  truthy (deref self r) = true →
  last_played (load collation_eq faults s r updates self).1 = Some r ∧
  ∀ key, key ≠ "_id" →
    deref (load collation_eq faults s r updates self).1 r !! key
    = deref self r !! key.
Proof.
  intros Ht. pose proof (truthy_lt _ _ Ht) as Hlt.
  destruct (database self) as [db|] eqn:Hdb.
  2:{ by rewrite load_no_write by auto. }
  destruct (database_write self) eqn:Hw.
  2:{ by rewrite load_no_write by auto. }
  destruct (truthy_opt updates) eqn:Hu.
  - rewrite (load_update _ _ _ _ _ _ db) by done. cbv zeta.
    destruct (faults OpUpdateOne); [|destruct (faults OpReplaceOne)];
      (split; [reflexivity|]); intros key Hkey; simpl; read_object Hlt;
      unfold with_id; by rewrite ?lookup_insert_ne by done.
  - rewrite (load_insert _ _ _ _ _ _ db) by done. cbv zeta.
    assert (∀ key, key ≠ "_id" →
              ensured self r !! key = deref self r !! key) as Hens.
    { intros key Hkey. unfold ensured, with_id.
      destruct (deref self r !! "_id"); [done|].
      by rewrite lookup_insert_ne. }
    destruct (faults OpInsertOne);
      [|destruct (insert_doc _ _); [destruct (faults OpReplaceOne)|]];
      destruct (deref self r !! "_id") eqn:Hid;
      (split; [reflexivity|]); intros key Hkey; simpl; read_object Hlt;
      unfold with_id; rewrite ?lookup_insert_ne by done;
      by rewrite ?Hens by done.
Qed.

(** A cycle whose transform finds nothing new is over. *)
Lemma cycle_skipped (collation_eq : atom → atom → bool)
    (faults : store_op → bool) (s : snapshot) (self : ETL) :
  status s = true →
  transform collation_eq faults s self = Ok (None, None) →
  extract_transform_load collation_eq faults s self = (self, Ok tt).
Proof.
  intros Hst Htr. unfold extract_transform_load.
  rewrite Hst, run_get_self, run_bind. unfold lift. by rewrite Htr.
Qed.

(** A cycle whose transform yields a document logs the song and loads the
    document as a new object. *)
Lemma cycle_processed (collation_eq : atom → atom → bool)
    (faults : store_op → bool) (s : snapshot) (self : ETL)
    (d : doc) (updates : option doc) :
  status s = true →
  transform collation_eq faults s self = Ok (Some d, updates) →
  truthy d = true →
  extract_transform_load collation_eq faults s self
  = load collation_eq faults s (length (objects self)) updates
      (set_objects (objects self ++ [d]) (add_log (LogInfo (song_name s)) self)).
Proof.
  intros Hst Htr Ht. unfold extract_transform_load.
  rewrite Hst, run_get_self, run_bind. unfold lift. rewrite Htr, Ht.
  by rewrite run_modify, run_bind.
Qed.

Lemma deref_new_object (self : ETL) (d : doc) :
  deref (set_objects (objects self ++ [d]) self) (length (objects self)) = d.
Proof.
  unfold deref. simpl. rewrite lookup_app_r by lia. by rewrite Nat.sub_diag.
Qed.

Lemma truthy_lookup (d : doc) (key : string) (v : value) :
  d !! key = Some v → truthy d = true.
Proof.
  intros Hv. apply bool_decide_eq_true. intros ->. by rewrite lookup_empty in Hv.
Qed.

(** The transform of a changed song, with or without a record. *)
Lemma transform_processed (collation_eq : atom → atom → bool)
    (faults : store_op → bool) (s : snapshot) (self : ETL)
    (started : elem) (existing : option doc) (l : list elem) :
  last_played_start self = Ok started →
  py_eq started (EAtom (start s)) = false →
  get_existing collation_eq faults s self = Ok existing →
  well_formed (start_doc existing) = true →
  get_list "datetime" (start_doc existing) = List l →
  ∃ d updates,
    transform collation_eq faults s self = Ok (Some d, updates) ∧
    d !! "datetime" = Some (List (add_new (EAtom (start s)) l)).
Proof.
  intros Hs Hne Hex Hwf Hl.
  destruct (well_formed_inv _ Hwf) as (l0 & cs & a & k & Hl0 & Hcs & Ha & Hk).
  rewrite Hl in Hl0. injection Hl0 as <-.
  unfold transform. rewrite Hs. simpl. rewrite Hne. simpl. rewrite Hex. simpl.
  destruct (truthy_opt existing) eqn:Ht.
  - destruct (transform_helper_step s existing l cs a k Hl Hcs Ha Hk)
      as (d & Hd & _ & _ & _ & _ & Hdt & _).
    rewrite Hd. simpl. by eexists _, _.
  - rewrite (start_doc_falsy _ Ht) in *.
    destruct (transform_helper_step s None l cs a k Hl Hcs Ha Hk)
      as (d & Hd & _ & _ & _ & _ & Hdt & _).
    rewrite Hd. simpl. by eexists _, _.
Qed.

(** X13: once a cycle has processed a snapshot whose start was new to the
    song's record, the same snapshot is skipped by the next cycle, which
    changes nothing at all. This holds even when the store writes of the
    first cycle failed: the cache alone decides, so the play that was not
    written is not written by the next poll either. *)
Theorem same_snapshot_skipped_after_load (collation_eq : atom → atom → bool)
    (faults faults' : store_op → bool) (s : snapshot) (self : ETL)
    (started : elem) (existing : option doc) (l : list elem) :
  status s = true →
  last_played_start self = Ok started →
  py_eq started (EAtom (start s)) = false →
  get_existing collation_eq faults s self = Ok existing →
  well_formed (start_doc existing) = true →
  get_list "datetime" (start_doc existing) = List l →
  existsb (py_eq (EAtom (start s))) l = false →
  extract_transform_load collation_eq faults' s
    (extract_transform_load collation_eq faults s self).1
  = ((extract_transform_load collation_eq faults s self).1, Ok tt).
Proof.
  intros Hst Hs Hne Hex Hwf Hl Hnew.
  destruct (transform_processed _ _ _ _ _ _ _ Hs Hne Hex Hwf Hl)
    as (d & updates & Htr & Hdt).
  unfold add_new in Hdt. rewrite Hnew in Hdt.
  pose proof (truthy_lookup _ _ _ Hdt) as Ht.
  rewrite (cycle_processed _ _ _ _ _ _ Hst Htr Ht).
  set (s1 := set_objects _ _).
  assert (deref s1 (length (objects self)) = d) as Hderef
    by apply (deref_new_object (add_log (LogInfo (song_name s)) self)).
  destruct (load_object collation_eq faults s (length (objects self)) updates s1)
    as [Hlp Hkeys]; [by rewrite Hderef|].
  specialize (Hkeys "datetime"). rewrite Hderef, Hdt in Hkeys.
  specialize (Hkeys ltac:(done)).
  apply cycle_skipped; [done|].
  apply (transform_unchanged _ _ _ _ (EAtom (start s))); [|apply py_eq_refl].
  unfold last_played_start. rewrite Hlp.
  rewrite (truthy_lookup _ _ _ Hkeys), Hkeys. simpl. by rewrite last_snoc.
Qed.

Lemma same_snapshot_skipped_after_load_witness :
  extract_transform_load atom_eqb no_faults (playing "A" "X" (AStr "t3"))
    (extract_transform_load atom_eqb pointer_write_fails
       (playing "A" "X" (AStr "t3")) (fresh_etl (Some db_AX) true)).1
  = ((extract_transform_load atom_eqb pointer_write_fails
        (playing "A" "X" (AStr "t3")) (fresh_etl (Some db_AX) true)).1, Ok tt).
Proof.
  apply (same_snapshot_skipped_after_load atom_eqb pointer_write_fails no_faults
           (playing "A" "X" (AStr "t3")) (fresh_etl (Some db_AX) true)
           (EAtom ANone) (Some record_AX)
           [EAtom (AStr "t1"); EAtom (AStr "t2")]); reflexivity.
Defined.

(** ** What a cycle writes to the history *)

Lemma get_existing_database (collation_eq : atom → atom → bool)
    (faults : store_op → bool) (s : snapshot) (self : ETL) (ex : doc) :
  get_existing collation_eq faults s self = Ok (Some ex) →
  is_Some (database self).
Proof.
  unfold get_existing. destruct (database self); [eauto | discriminate].
Qed.

(** The history after [load] on the update path, once [update_one] went
    through. *)
Lemma load_update_history (collation_eq : atom → atom → bool)
    (faults : store_op → bool) (s : snapshot) (r : ref) (u : doc)
    (self : ETL) :
  truthy (deref self r) = true →
  is_Some (database self) → database_write self = true →
  truthy u = true → faults OpUpdateOne = false →
  history (load collation_eq faults s r (Some u) self).1
  = update_one (existing_filter collation_eq s) u (history self).
Proof.
  intros Ht [db Hdb] Hw Hu Hfu.
  pose proof (collection_name_ne_last_played self) as Hname.
  rewrite (load_update _ _ _ _ _ _ db) by done. cbv zeta. rewrite Hfu.
  assert (history self = collection db (collection_name self)) as ->
    by (unfold history; by rewrite Hdb).
  destruct (faults OpReplaceOne); unfold history; simpl;
    rewrite ?(collection_set_collection_ne _ "last_played") by done;
    by rewrite collection_set_collection.
Qed.

(** The history and the ObjectId counter after [load] on the insert path,
    once [insert_one] went through. *)
Lemma load_insert_history (collation_eq : atom → atom → bool)
    (faults : store_op → bool) (s : snapshot) (r : ref)
    (updates : option doc) (self : ETL) :
  truthy (deref self r) = true →
  is_Some (database self) → database_write self = true →
  truthy_opt updates = false → faults OpInsertOne = false →
  deref self r !! "_id" = None →
  forallb (λ d, negb (id_filter (AOid (next_oid self)) d)) (history self) = true →
  history (load collation_eq faults s r updates self).1
    = history self ++ [with_id (AOid (next_oid self)) (deref self r)] ∧
  next_oid (load collation_eq faults s r updates self).1
    = N.succ (next_oid self).
Proof.
  intros Ht [db Hdb] Hw Hu Hfi Hid Hfresh.
  pose proof (collection_name_ne_last_played self) as Hname.
  rewrite (load_insert _ _ _ _ _ _ db) by done. cbv zeta. rewrite Hfi.
  assert (history self = collection db (collection_name self)) as Hhist
    by (unfold history; by rewrite Hdb).
  rewrite Hhist in *.
  assert (ensured self r = with_id (AOid (next_oid self)) (deref self r)) as ->
    by (unfold ensured; by rewrite Hid).
  assert (insert_doc (with_id (AOid (next_oid self)) (deref self r))
            (collection db (collection_name self))
          = Ok (collection db (collection_name self)
                ++ [with_id (AOid (next_oid self)) (deref self r)])) as ->.
  { unfold insert_doc.
    assert (existsb _ (collection db (collection_name self)) = false) as ->;
      [|done].
    apply not_true_is_false. intros Hex.
    apply existsb_exists in Hex as (d' & Hin & Hd').
    apply bool_decide_eq_true in Hd' as [_ Hd'].
    rewrite forallb_forall in Hfresh. specialize (Hfresh d' Hin).
    apply negb_true_iff, bool_decide_eq_false in Hfresh. apply Hfresh.
    rewrite Hd'. unfold with_id. apply lookup_insert_eq. }
  rewrite Hid.
  destruct (faults OpReplaceOne); (split; [|done]); unfold history; simpl;
    rewrite ?(collection_set_collection_ne _ "last_played") by done;
    by rewrite collection_set_collection.
Qed.

(** X14: a cycle for a changed song that has a record, with persistence on
    and a working [update_one], rewrites that record in place and adds
    none: the first record matching artist and song gets the start
    appended to [datetime] and the channel to [channels] (each unless
    already there) and [play_count] raised by one, while its other fields,
    artwork and album included, stay as stored even when the snapshot
    carries different ones. A failing pointer write does not undo it. *)
Theorem repeat_cycle_updates_record (collation_eq : atom → atom → bool)
    (faults : store_op → bool) (s : snapshot) (self : ETL)
    (started : elem) (ex : doc) (l cs : list elem) (k : Z) :
  status s = true →
  last_played_start self = Ok started →
  py_eq started (EAtom (start s)) = false →
  get_existing collation_eq faults s self = Ok (Some ex) →
  get_list "datetime" ex = List l →
  get_list "channels" ex = List cs →
  ex !! "play_count" = Some (Elem (EAtom (AInt k))) →
  database_write self = true →
  faults OpUpdateOne = false →
  ∃ i ex',
    find_first (existing_filter collation_eq s) (history self) = Some (i, ex) ∧
    history (extract_transform_load collation_eq faults s self).1
      = <[i := ex']> (history self) ∧
    ex' !! "datetime" = Some (List (add_new (EAtom (start s)) l)) ∧
    ex' !! "channels" = Some (List (add_new (channel_data s) cs)) ∧
    ex' !! "play_count" = Some (Elem (EAtom (AInt (k + 1)))) ∧
    ∀ key, key ∉ mutable_keys → ex' !! key = ex !! key.
Proof.
  intros Hst Hs Hne Hex Hl Hcs Hk Hw Hfu.
  pose proof (truthy_lookup _ _ _ Hk) as Htex.
  destruct (transform_helper_step s (Some ex) l cs (AInt k) k Hl Hcs)
    as (d & Hd & _ & _ & _ & _ & Hdt & Hch & Hpc & _);
    [simpl; by rewrite Hk | done |].
  pose proof (transform_existing_eq _ _ _ _ _ _ _ Hs Hne Hex Htex Hd) as Htr.
  destruct (get_existing_found _ _ _ _ _ Hex) as [i Hfind].
  assert (∀ key v, key ∈ mutable_keys → d !! key = Some v →
            (filter (λ kv : string * value, kv.1 ∉ index_keys) d ∪ ex) !! key
            = Some v) as Hmut.
  { intros key v Hkey Hv. apply lookup_union_Some_l.
    apply map_lookup_filter_Some. split; [done|]. simpl.
    unfold mutable_keys, index_keys in *. intros Hin.
    repeat (apply elem_of_cons in Hkey as [-> | Hkey]);
      try (by apply elem_of_nil in Hkey);
      repeat (apply elem_of_cons in Hin as [[=] | Hin]);
      by apply elem_of_nil in Hin. }
  exists i, (filter (λ kv : string * value, kv.1 ∉ index_keys) d ∪ ex).
  split; [done|]. split.
  - rewrite (cycle_processed _ _ _ _ _ _ Hst Htr (truthy_lookup _ _ _ Hdt)).
    set (s1 := set_objects _ _).
    assert (deref s1 (length (objects self)) = d) as Hderef
      by apply (deref_new_object (add_log (LogInfo (song_name s)) self)).
    rewrite load_update_history.
    + change (history s1) with (history self). unfold update_one.
      by rewrite Hfind.
    + by rewrite Hderef, (truthy_lookup _ _ _ Hdt).
    + exact (get_existing_database _ _ _ _ _ Hex).
    + exact Hw.
    + apply (truthy_lookup _ "play_count" (Elem (EAtom (AInt (k + 1))))).
      apply map_lookup_filter_Some. split; [done|]. simpl.
      unfold index_keys. intros Hin.
      repeat (apply elem_of_cons in Hin as [[=] | Hin]);
        by apply elem_of_nil in Hin.
    + exact Hfu.
  - split; [|split; [|split]].
    + apply Hmut; [unfold mutable_keys; repeat constructor | done].
    + apply Hmut; [unfold mutable_keys; repeat constructor | done].
    + apply Hmut; [unfold mutable_keys; repeat constructor | done].
    + intros key Hkey. by eapply updates_keep_fields.
Qed.

Lemma repeat_cycle_updates_record_witness :
  ∃ i ex',
    find_first (existing_filter atom_eqb (playing "A" "X" (AStr "t3")))
      (history (fresh_etl (Some db_AX) true)) = Some (i, record_AX) ∧
    history (extract_transform_load atom_eqb pointer_write_fails
               (playing "A" "X" (AStr "t3")) (fresh_etl (Some db_AX) true)).1
      = <[i := ex']> (history (fresh_etl (Some db_AX) true)) ∧
    ex' !! "datetime"
      = Some (List (add_new (EAtom (AStr "t3"))
                      [EAtom (AStr "t1"); EAtom (AStr "t2")])) ∧
    ex' !! "channels"
      = Some (List (add_new (channel_data (playing "A" "X" (AStr "t3")))
                      [channel_data (playing "A" "X" ANone)])) ∧
    ex' !! "play_count" = Some (Elem (EAtom (AInt (2 + 1)))) ∧
    ∀ key, key ∉ mutable_keys → ex' !! key = record_AX !! key.
Proof.
  apply (repeat_cycle_updates_record atom_eqb pointer_write_fails
           (playing "A" "X" (AStr "t3")) (fresh_etl (Some db_AX) true)
           (EAtom ANone)); reflexivity.
Defined.

(** X15: a cycle for a changed song without a record, with persistence on
    and a working [insert_one], appends exactly one record to the history:
    the merge of the snapshot into an empty document, under the next
    ObjectId, provided no stored record carries that id yet. The records
    already there are not touched, and the ObjectId counter advances. *)
Theorem new_song_cycle_appends_record (collation_eq : atom → atom → bool)
    (faults : store_op → bool) (s : snapshot) (self : ETL) (started : elem) :
  status s = true →
  last_played_start self = Ok started →
  py_eq started (EAtom (start s)) = false →
  get_existing collation_eq faults s self = Ok None →
  is_Some (database self) →
  database_write self = true →
  faults OpInsertOne = false →
  forallb (λ d, negb (id_filter (AOid (next_oid self)) d)) (history self) = true →
  ∃ d, transform_helper s None = Ok d ∧
    history (extract_transform_load collation_eq faults s self).1
      = history self ++ [with_id (AOid (next_oid self)) d] ∧
    next_oid (extract_transform_load collation_eq faults s self).1
      = N.succ (next_oid self).
Proof.
  intros Hst Hs Hne Hex Hdb Hw Hfi Hfresh.
  destruct (transform_helper_step s None [] [] (AInt 0) 0)
    as (d & Hd & _ & _ & _ & _ & Hdt & _); [done..|].
  exists d. split; [done|].
  assert (transform collation_eq faults s self = Ok (Some d, None)) as Htr.
  { unfold transform. rewrite Hs. simpl. rewrite Hne. simpl. rewrite Hex. simpl.
    by rewrite Hd. }
  rewrite (cycle_processed _ _ _ _ _ _ Hst Htr (truthy_lookup _ _ _ Hdt)).
  set (s1 := set_objects _ _).
  assert (deref s1 (length (objects self)) = d) as Hderef
    by apply (deref_new_object (add_log (LogInfo (song_name s)) self)).
  destruct (load_insert_history collation_eq faults s (length (objects self))
              None s1) as [Hh Hn]; try done.
  - by rewrite Hderef, (truthy_lookup _ _ _ Hdt).
  - rewrite Hderef.
    rewrite (transform_helper_other_keys s None d "_id" Hd); [done|].
    intros Hin. repeat (apply elem_of_cons in Hin as [[=] | Hin]).
    by apply elem_of_nil in Hin.
  - rewrite Hh, Hn, Hderef. done.
Qed.

Lemma new_song_cycle_appends_record_witness :
  ∃ d, transform_helper (playing "B" "Y" (AStr "t3")) None = Ok d ∧
    history (extract_transform_load atom_eqb no_faults
               (playing "B" "Y" (AStr "t3"))
               (set_next_oid 1 (fresh_etl (Some db_AX) true))).1
      = history (set_next_oid 1 (fresh_etl (Some db_AX) true))
          ++ [with_id (AOid (next_oid (set_next_oid 1 (fresh_etl (Some db_AX) true)))) d] ∧
    next_oid (extract_transform_load atom_eqb no_faults
                (playing "B" "Y" (AStr "t3"))
                (set_next_oid 1 (fresh_etl (Some db_AX) true))).1
      = N.succ (next_oid (set_next_oid 1 (fresh_etl (Some db_AX) true))).
Proof.
  apply (new_song_cycle_appends_record atom_eqb no_faults
           (playing "B" "Y" (AStr "t3"))
           (set_next_oid 1 (fresh_etl (Some db_AX) true)) (EAtom ANone));
    [reflexivity | reflexivity | reflexivity | reflexivity | by eexists
    | reflexivity | reflexivity | reflexivity].
Defined.

(** ** Restart: the cache is read back from the pointer collection *)

(** The state a [load] leaves when it returns normally with persistence
    on. *)
Lemma load_persisted (collation_eq : atom → atom → bool)
    (faults : store_op → bool) (s : snapshot) (r : ref)
    (updates : option doc) (self self' : ETL) :
  truthy (deref self r) = true →
  is_Some (database self) → database_write self = true →
  load collation_eq faults s r updates self = (self', Ok tt) →
  ∃ db', database self' = Some db' ∧
    "last_played" ∈ dom (collections db') ∧
    snd <$> find_first (id_filter (channel (pss_channel self)))
                       (collection db' "last_played")
      = Some (with_id (channel (pss_channel self)) (deref self r)) ∧
    last_played self' = Some r ∧
    deref self' r = with_id (channel (pss_channel self)) (deref self r).
Proof.
  intros Ht [db Hdb] Hw Hload. pose proof (truthy_lt _ _ Ht) as Hlt.
  destruct (truthy_opt updates) eqn:Hu.
  - rewrite (load_update _ _ _ _ _ _ db) in Hload by done. cbv zeta in Hload.
    destruct (faults OpUpdateOne); [done|].
    destruct (faults OpReplaceOne); [done|].
    injection Hload as <-. eexists. split; [reflexivity|].
    split; [|split; [|split; [reflexivity|]]].
    + unfold set_collection. simpl. rewrite dom_insert. set_solver.
    + rewrite collection_set_collection.
      apply find_first_replace_one, id_filter_with_id.
    + by read_object Hlt.
  - rewrite (load_insert _ _ _ _ _ _ db) in Hload by done. cbv zeta in Hload.
    destruct (faults OpInsertOne); [done|].
    destruct (insert_doc _ _) as [c|e]; [|done].
    destruct (faults OpReplaceOne); [done|].
    injection Hload as <-. rewrite with_id_ensured.
    eexists. split; [reflexivity|].
    split; [|split; [|split]].
    + unfold set_collection. simpl. rewrite dom_insert. set_solver.
    + rewrite collection_set_collection.
      apply find_first_replace_one, id_filter_with_id.
    + by destruct (deref self r !! "_id").
    + destruct (deref self r !! "_id"); by read_object Hlt.
Qed.

(** X16: what a persisted [load] wrote is what a restart reads. After a
    [load] that returned normally with persistence on, the call
    [__update_last_played()] that [__init__] makes on a new object for the
    same channel over the resulting database (its store reads working)
    caches a copy of the pointer document, which is the loaded record with
    [_id] set to the channel, and [last_played_start] of the new object is
    that of the old one: the song playing across the restart is not
    counted twice. *)
Theorem restart_recovers_last_played (collation_eq : atom → atom → bool)
    (faults faults' : store_op → bool) (s : snapshot) (r : ref)
    (updates : option doc) (self self' restarted : ETL) :
  truthy (deref self r) = true →
  is_Some (database self) → database_write self = true →
  load collation_eq faults s r updates self = (self', Ok tt) →
  database restarted = database self' →
  pss_channel restarted = pss_channel self →
  faults' OpCollectionNames = false → faults' OpFindOne = false →
  ∃ restarted' r',
    update_last_played faults' None restarted = (restarted', Ok tt) ∧
    last_played restarted' = Some r' ∧
    deref restarted' r' = with_id (channel (pss_channel self)) (deref self r) ∧
    database restarted' = database self' ∧
    last_played_start restarted' = last_played_start self'.
Proof.
  intros Ht Hdb Hw Hload Hdb' Hch Hfc Hff.
  destruct (load_persisted _ _ _ _ _ _ _ Ht Hdb Hw Hload)
    as (db' & Hdbs & Hdom & Hfind & Hlp & Hobj).
  rewrite Hdbs in Hdb'.
  destruct (find_first _ (collection db' "last_played")) as [[i p]|] eqn:Hf;
    [|done].
  simpl in Hfind. injection Hfind as ->.
  eexists _, (length (objects restarted)). split.
  - unfold update_last_played. rewrite run_get_self. simpl. rewrite Hdb'.
    rewrite run_store_call, Hfc.
    rewrite (bool_decide_eq_true_2 _ Hdom).
    rewrite run_store_call, Hff, Hch, Hf. reflexivity.
  - split; [reflexivity|]. split.
    { rewrite deref_set_last_played. apply deref_new_object. }
    split; [by rewrite Hdbs|].
    unfold last_played_start. rewrite Hlp, Hobj. simpl.
    rewrite deref_set_last_played, deref_new_object. reflexivity.
Qed.

Lemma restart_recovers_last_played_witness :
  ∃ restarted' r',
    update_last_played no_faults None
      (fresh_etl
         (database (load atom_eqb no_faults (playing "A" "X" (AStr "t3")) 0%nat
                      (Some updates_AX)
                      (holding record_AX (fresh_etl (Some db_AX) true))).1)
         false)
      = (restarted', Ok tt) ∧
    last_played restarted' = Some r' ∧
    deref restarted' r'
      = with_id (channel (pss_channel (holding record_AX (fresh_etl (Some db_AX) true))))
          (deref (holding record_AX (fresh_etl (Some db_AX) true)) 0%nat) ∧
    database restarted'
      = database (load atom_eqb no_faults (playing "A" "X" (AStr "t3")) 0%nat
                    (Some updates_AX)
                    (holding record_AX (fresh_etl (Some db_AX) true))).1 ∧
    last_played_start restarted'
      = last_played_start
          (load atom_eqb no_faults (playing "A" "X" (AStr "t3")) 0%nat
             (Some updates_AX)
             (holding record_AX (fresh_etl (Some db_AX) true))).1.
Proof.
  apply (restart_recovers_last_played atom_eqb no_faults no_faults
           (playing "A" "X" (AStr "t3")) 0%nat (Some updates_AX)
           (holding record_AX (fresh_etl (Some db_AX) true)));
    [reflexivity | by eexists | reflexivity | | reflexivity | reflexivity
    | reflexivity | reflexivity].
  by destruct (load atom_eqb no_faults (playing "A" "X" (AStr "t3")) 0%nat
                 (Some updates_AX)
                 (holding record_AX (fresh_etl (Some db_AX) true)))
    as [? [[]|?]] eqn:E; [|vm_compute in E; discriminate].
Defined.
